(** * CraftReporter: a shallow embedding of the Playwright reporter class

    The reporter collects one [TestEntry] per test while Playwright runs,
    collapses retries, extracts metadata from annotations and the title
    path, and at the end of the run sorts the entries, counts them and
    injects everything into an HTML template.

    Strings are Rocq strings; JavaScript objects used as maps are finite
    maps; functions that can throw return a [Result].  The host functions
    that depend on the character set ([toLowerCase], [localeCompare]) are
    modelled on ASCII text, and the properties that rest on their result
    are stated for ASCII text.  Paths are POSIX paths. *)

From Stdlib Require Import ZArith NArith Ascii String List Lia Bool.
From stdpp Require Import base option list strings gmap sorting.

Local Open Scope Z_scope.
Set Warnings "-register-all,-clear-no-such-hyp".
Set Default Proof Using "Type".

(** ** Host (JavaScript) primitives *)

(** A value that is either returned or thrown. *)
Inductive Result (A : Type) : Type :=
| Ok (a : A)
| Throw (err : string).
Arguments Ok {A} a.
Arguments Throw {A} err.

#[global] Instance result_ret : MRet Result := λ A a, Ok a.
#[global] Instance result_bind : MBind Result := λ A B k r,
  match r with
  | Ok a => k a
  | Throw e => Throw e
  end.

(** [try { body } catch { handler }] *)
Definition try_catch {A} (body : Result A) (handler : Result A) : Result A :=
  match body with
  | Ok a => Ok a
  | Throw _ => handler
  end.

(** Truthiness of a string: only the empty string is falsy. *)
Definition truthy (s : string) : bool :=
  match s with
  | EmptyString => false
  | String _ _ => true
  end.

(** Truthiness of an optional string property: [undefined] is falsy. *)
Definition truthy_opt (o : option string) : bool :=
  match o with
  | None => false
  | Some s => truthy s
  end.

(** The text is ASCII: every character has a code below 128. *)
Fixpoint isASCII (s : string) : bool :=
  match s with
  | EmptyString => true
  | String c s' => (N_of_ascii c <? 128)%N && isASCII s'
  end.

(** [c.toLowerCase()] on one ASCII character; other bytes are unchanged. *)
Definition lower_ascii (c : ascii) : ascii :=
  let n := N_of_ascii c in
  if ((65 <=? n) && (n <=? 90))%N then ascii_of_N (n + 32) else c.

(** [s.toLowerCase()] on ASCII text: the letters [A] to [Z] are
    lower-cased.  The host also lower-cases the letters outside ASCII,
    which this model leaves as they are. *)
Fixpoint toLowerCase (s : string) : string :=
  match s with
  | EmptyString => EmptyString
  | String c s' => String (lower_ascii c) (toLowerCase s')
  end.

(** [parts.join(sep)] *)
Fixpoint join (sep : string) (parts : list string) : string :=
  match parts with
  | [] => ""
  | [p] => p
  | p :: rest => p +:+ sep +:+ join sep rest
  end.

(** [obj[key] = value] on a plain object used as a map.  Every key creates
    or overwrites an own property, except ["__proto__"]: that name is an
    accessor inherited from [Object.prototype], whose setter ignores a
    value that is not an object, so assigning a string leaves the object
    unchanged. *)
Definition obj_set (key value : string) (obj : gmap string string)
  : gmap string string :=
  if String.eqb key "__proto__" then obj else <[key := value]> obj.

(** ** Data model *)

(** An annotation attached to a test: [{ type, description? }]. *)
Record Annotation := mkAnnotation {
  ann_type : string;
  ann_description : option string;
}.

(** [TestMetadata]: every property is optional.  The type is declared in
    [../types], which is not among the sources; the fields are the ones
    [extractMetadata] writes. *)
Record TestMetadata := mkMetadata {
  epic : option string;
  feature : option string;
  story : option string;
  suite : option string;
  subSuite : option string;
  parentSuite : option string;
  severity : option string;
  owner : option string;
  tags : option (list string);
  description : option string;
  parameters : option (gmap string string);
}.

(** [{}] *)
Definition emptyMetadata : TestMetadata :=
  mkMetadata None None None None None None None None None None None.

Definition set_epic v m :=
  mkMetadata v (feature m) (story m) (suite m) (subSuite m) (parentSuite m)
    (severity m) (owner m) (tags m) (description m) (parameters m).
Definition set_feature v m :=
  mkMetadata (epic m) v (story m) (suite m) (subSuite m) (parentSuite m)
    (severity m) (owner m) (tags m) (description m) (parameters m).
Definition set_story v m :=
  mkMetadata (epic m) (feature m) v (suite m) (subSuite m) (parentSuite m)
    (severity m) (owner m) (tags m) (description m) (parameters m).
Definition set_suite v m :=
  mkMetadata (epic m) (feature m) (story m) v (subSuite m) (parentSuite m)
    (severity m) (owner m) (tags m) (description m) (parameters m).
Definition set_subSuite v m :=
  mkMetadata (epic m) (feature m) (story m) (suite m) v (parentSuite m)
    (severity m) (owner m) (tags m) (description m) (parameters m).
Definition set_parentSuite v m :=
  mkMetadata (epic m) (feature m) (story m) (suite m) (subSuite m) v
    (severity m) (owner m) (tags m) (description m) (parameters m).
Definition set_severity v m :=
  mkMetadata (epic m) (feature m) (story m) (suite m) (subSuite m)
    (parentSuite m) v (owner m) (tags m) (description m) (parameters m).
Definition set_owner v m :=
  mkMetadata (epic m) (feature m) (story m) (suite m) (subSuite m)
    (parentSuite m) (severity m) v (tags m) (description m) (parameters m).
Definition set_tags v m :=
  mkMetadata (epic m) (feature m) (story m) (suite m) (subSuite m)
    (parentSuite m) (severity m) (owner m) v (description m) (parameters m).
Definition set_description v m :=
  mkMetadata (epic m) (feature m) (story m) (suite m) (subSuite m)
    (parentSuite m) (severity m) (owner m) (tags m) v (parameters m).
Definition set_parameters v m :=
  mkMetadata (epic m) (feature m) (story m) (suite m) (subSuite m)
    (parentSuite m) (severity m) (owner m) (tags m) (description m) v.

(** ** extractMetadata *)

(** The body of the [for (const annotation of annotations)] loop: the
    [switch] over the lower-cased annotation type. *)
Definition applyAnnotation (metadata : TestMetadata) (annotation : Annotation)
  : TestMetadata :=
  let type := toLowerCase (ann_type annotation) in
  let value := default "" (ann_description annotation) in
  if String.eqb type "epic" then set_epic (Some value) metadata
  else if String.eqb type "feature" then set_feature (Some value) metadata
  else if String.eqb type "story" then set_story (Some value) metadata
  else if String.eqb type "suite" then set_suite (Some value) metadata
  else if String.eqb type "subsuite" then set_subSuite (Some value) metadata
  else if String.eqb type "parentsuite" then set_parentSuite (Some value) metadata
  else if String.eqb type "severity" then set_severity (Some value) metadata
  else if String.eqb type "owner" then set_owner (Some value) metadata
  else if String.eqb type "tag" then
    set_tags (Some (default [] (tags metadata) ++ [value])) metadata
  else if String.eqb type "description" then set_description (Some value) metadata
  else if truthy value then
    set_parameters
      (Some (obj_set type value (default ∅ (parameters metadata)))) metadata
  else metadata.

(** The annotation loop, started from [{}]. *)
Definition applyAnnotations (annotations : list Annotation) : TestMetadata :=
  foldl applyAnnotation emptyMetadata annotations.

(** The hierarchy back-fill from [titlePath]. *)
Definition backfill (metadata : TestMetadata) (titlePath : list string)
  : TestMetadata :=
  if (1 <? length titlePath)%nat then
    let m1 :=
      if negb (truthy_opt (parentSuite metadata)) && (1 <? length titlePath)%nat
      then set_parentSuite (titlePath !! 0%nat) metadata else metadata in
    let m2 :=
      if negb (truthy_opt (suite m1)) && (2 <? length titlePath)%nat
      then set_suite (titlePath !! 1%nat) m1 else m1 in
    if negb (truthy_opt (subSuite m2)) && (3 <? length titlePath)%nat
    then set_subSuite (titlePath !! 2%nat) m2 else m2
  else metadata.

Definition extractMetadata (annotations : list Annotation)
    (titlePath : list string) : TestMetadata :=
  backfill (applyAnnotations annotations) titlePath.

(** ** Tests, results and entries *)

(** Modelled from the spec: the type of [status] is not declared in the
    sources (it is Playwright's [TestResult.status]); the data model of
    the spec lists five statuses: passed, failed, timed-out, skipped and
    unknown.  The reporter names four of them; the fifth, which
    Playwright calls [interrupted], reaches the [default] branch of the
    [switch] in [onTestEnd]. *)
Inductive TestStatus := passed | failed | timedOut | skipped | interrupted.

#[global] Instance TestStatus_eq_dec : EqDecision TestStatus.
Proof. solve_decision. Defined.

(** The parts of Playwright's [TestError], [TestCase] and [TestResult]
    that the reporter reads. *)
Module TestError.
Record t := mk {
  message : option string;
  stack : option string;
}.
End TestError.

Module TestCase.
Record t := mk {
  id : string;
  title : string;
  titlePath : list string;
  annotations : list Annotation;
  location_file : string;
  location_line : Z;
}.
End TestCase.

Module TestResult.
Record t := mk {
  status : TestStatus;
  duration : Z;
  errors : list TestError.t;
  startTime : string;  (* [result.startTime.toISOString()] *)
  retry : Z;
}.
End TestResult.

(** [TestEntry], declared in [../types]: the fields are those of the
    [entry] object that [onTestEnd] builds. *)
Module TestEntry.
Record t := mk {
  testId : string;
  name : string;
  fullTitle : string;
  status : TestStatus;
  duration : Z;
  errorTrace : option string;
  metadata : TestMetadata;
  filePath : string;
  line : Z;
  startTime : string;
  retries : Z;
}.
End TestEntry.

(** The line feed character, as a string. *)
Definition LF : string := String (ascii_of_nat 10) EmptyString.

(** The callback of [errors.map(...)] in [formatErrors]. *)
Definition formatError (error : TestError.t) : string :=
  let message := default "" (TestError.message error) in
  if truthy_opt (TestError.stack error)
  then message +:+ LF +:+ default "" (TestError.stack error)
  else message.

Definition formatErrors (errors : list TestError.t) : option string :=
  if (length errors =? 0)%nat then None
  else Some (join (LF +:+ "---" +:+ LF) (formatError <$> errors)).

(** The [entry] object built at the top of [onTestEnd]. *)
Definition makeEntry (test : TestCase.t) (result : TestResult.t) : TestEntry.t :=
  {| TestEntry.testId := TestCase.id test;
     TestEntry.name := TestCase.title test;
     TestEntry.fullTitle := join " > " (TestCase.titlePath test);
     TestEntry.status := TestResult.status result;
     TestEntry.duration := TestResult.duration result;
     TestEntry.errorTrace := formatErrors (TestResult.errors result);
     TestEntry.metadata :=
       extractMetadata (TestCase.annotations test) (TestCase.titlePath test);
     TestEntry.filePath := TestCase.location_file test;
     TestEntry.line := TestCase.location_line test;
     TestEntry.startTime := TestResult.startTime result;
     TestEntry.retries := TestResult.retry result |}.

(** [this.tests.findIndex(t => t.testId === id)]; [None] stands for -1. *)
Definition findIndex (id : string) (tests : list TestEntry.t) : option nat :=
  fst <$> list_find (λ t, TestEntry.testId t = id) tests.

(** [onTestEnd] on the [tests] array (the console output is left out). *)
Definition onTestEnd (tests : list TestEntry.t)
    (test : TestCase.t) (result : TestResult.t) : list TestEntry.t :=
  let entry := makeEntry test result in
  match findIndex (TestCase.id test) tests with
  | Some existingIndex => <[existingIndex := entry]> tests
  | None => tests ++ [entry]
  end.

(** The identity of the test of a call [onTestEnd(test, result)]. *)
Definition callId (call : TestCase.t * TestResult.t) : string :=
  TestCase.id call.1.

(** A sequence of [onTestEnd] calls, from the array [tests]. *)
Definition run (tests : list TestEntry.t)
    (calls : list (TestCase.t * TestResult.t)) : list TestEntry.t :=
  foldl (λ tests call, onTestEnd tests call.1 call.2) tests calls.

(** The same on a fresh reporter, whose [tests] is []. *)
Definition record (calls : list (TestCase.t * TestResult.t)) : list TestEntry.t :=
  run [] calls.

(** ** Sorting by name *)

(** [Array.prototype.sort(compareFn)]: a stable sort; an element moves in
    front of another only when [compareFn] puts it strictly first. *)
Section Sort.
Context {A : Type} (compareFn : A → A → Z).

Fixpoint sort_insert (x : A) (l : list A) : list A :=
  match l with
  | [] => [x]
  | y :: l' =>
      if compareFn x y <=? 0 then x :: y :: l' else y :: sort_insert x l'
  end.

Definition sort (l : list A) : list A := foldr sort_insert [] l.
End Sort.

Definition is_digit (c : ascii) : bool :=
  let n := N_of_ascii c in ((48 <=? n) && (n <=? 57))%N.

(** The double quote character, as a string. *)
Definition DQ : string := String (ascii_of_nat 34) EmptyString.

(** The characters of ASCII, other than letters and digits, that the
    root collation order (CLDR, which the collator uses for English) gives
    a weight, from the first to the last: tab, line feed, vertical tab,
    form feed, carriage return, space, then punctuation, symbols and the
    dollar sign.  All of them come before the digits, and the digits
    before the letters.  The other control characters are ignored. *)
Definition collationOrder : string :=
  String (ascii_of_nat 9) (String (ascii_of_nat 10) (String (ascii_of_nat 11)
    (String (ascii_of_nat 12) (String (ascii_of_nat 13)
      (" _-,;:!?.'" +:+ DQ +:+ "()[]{}@*/\&#%`^+<=>|~$"))))).

(** The index of the first [c] in [s]. *)
Fixpoint position (c : ascii) (s : string) : option N :=
  match s with
  | EmptyString => None
  | String d s' => if Ascii.eqb c d then Some 0%N else N.succ <$> position c s'
  end.

(** The weight of a number: after [collationOrder], before the letters. *)
Definition numberWeight : N := 100.

(** The primary weight of a character that is not a digit, [None] for a
    character that the collator ignores.  A letter weighs the same in
    both cases ([sensitivity: 'base']).  A byte outside ASCII gets a
    weight after the letters: the collator's order of such text is not
    modelled. *)
Definition primaryWeight (c : ascii) : option N :=
  let n := N_of_ascii (lower_ascii c) in
  if ((97 <=? n) && (n <=? 122))%N then Some (200 + n)%N
  else if (128 <=? n)%N then Some (1000 + n)%N
  else position c collationOrder.

(** The number of digits that the collator reads as one number; a longer
    run of digits is read as several numbers. *)
Definition maxNumberLength : nat := 254.

(** A digit is added to the number being read: [run] holds the count of
    its digits, leading zeros left out, and its value.  The result is the
    number that is complete, if the digit starts a new one, and the
    number being read from here on. *)
Definition readDigit (run : option (nat * N)) (d : N)
  : list (N * N) * (nat * N) :=
  let '(len, v) := default (0%nat, 0%N) run in
  if (len =? maxNumberLength)%nat
  then ([(numberWeight, v)], (if (d =? 0)%N then 0%nat else 1%nat, d))
  else
    ([], (if (len =? 0)%nat && (d =? 0)%N then 0%nat else S len, 10 * v + d)%N).

(** The number being read ends. *)
Definition endRun (run : option (nat * N)) : list (N * N) :=
  match run with
  | Some (_, v) => [(numberWeight, v)]
  | None => []
  end.

(** The collation elements of a string, for the options
    [{ numeric: true, sensitivity: 'base' }].  An element is a pair
    (weight, number): a character that is not a digit has its primary
    weight and number 0, and an ignored character has no element; a
    maximal run of digits counts as one element, with the weight of
    numbers and the number it spells, leading zeros ignored (a run of
    more than [maxNumberLength] digits counts as several numbers). *)
Fixpoint collationElements (run : option (nat * N)) (s : string)
  : list (N * N) :=
  match s with
  | EmptyString => endRun run
  | String c s' =>
      if is_digit c then
        let '(complete, run') := readDigit run (N_of_ascii c - 48)%N in
        complete ++ collationElements (Some run') s'
      else
        endRun run
        ++ match primaryWeight c with
           | Some w => [(w, 0%N)]
           | None => []
           end
        ++ collationElements None s'
  end.

Definition compareElement (x y : N * N) : comparison :=
  match (x.1 ?= y.1)%N with
  | Eq => (x.2 ?= y.2)%N
  | c => c
  end.

Fixpoint compareElements (k1 k2 : list (N * N)) : comparison :=
  match k1, k2 with
  | [], [] => Eq
  | [], _ :: _ => Lt
  | _ :: _, [] => Gt
  | x :: k1', y :: k2' =>
      match compareElement x y with
      | Eq => compareElements k1' k2'
      | c => c
      end
  end.

(** [a.localeCompare(b, undefined, { numeric: true, sensitivity: 'base' })].
    The collator belongs to the host ([Intl], ECMA-402, implemented by
    ICU), not to the reporter; this is its behaviour on ASCII text in the
    root collation order: the keys of the two strings are compared
    element by element, and a key that is a prefix of the other comes
    first. *)
Definition localeCompare (a b : string) : Z :=
  match compareElements (collationElements None a) (collationElements None b) with
  | Lt => -1
  | Eq => 0
  | Gt => 1
  end.

(** [this.tests.sort((a, b) => a.name.localeCompare(b.name, ...))] *)
Definition sortTests (tests : list TestEntry.t) : list TestEntry.t :=
  sort (λ a b, localeCompare (TestEntry.name a) (TestEntry.name b)) tests.

(** ** JSON.parse *)

(** A parsed JSON text.  Strings are kept as written (escape sequences
    are checked, not decoded) and numbers as their lexeme: the reporter
    only hands the value on. *)
Inductive json :=
| JNull
| JBool (b : bool)
| JNumber (lexeme : string)
| JString (raw : string)
| JArray (items : list json)
| JObject (members : list (string * json)).

(** [{}] *)
Definition emptyObject : json := JObject [].

Inductive Token :=
| TLBrace | TRBrace | TLBracket | TRBracket | TColon | TComma
| TValue (v : json).

Inductive StringMode := Plain | Escape | Hex (n : nat).

Inductive LexState :=
| LStart
| LString (acc : list ascii) (mode : StringMode)
| LNumber (acc : list ascii)
| LWord (acc : list ascii).

Definition code (c : ascii) : N := N_of_ascii c.

Definition is_ws (c : ascii) : bool :=
  ((code c =? 32) || (code c =? 9) || (code c =? 10) || (code c =? 13))%N.

Definition is_hex (c : ascii) : bool :=
  is_digit c
  || ((65 <=? code c) && (code c <=? 70))%N
  || ((97 <=? code c) && (code c <=? 102))%N.

Definition is_lower (c : ascii) : bool :=
  ((97 <=? code c) && (code c <=? 122))%N.

Definition is_number_char (c : ascii) : bool :=
  is_digit c
  || (code c =? 45)%N || (code c =? 43)%N || (code c =? 46)%N
  || (code c =? 101)%N || (code c =? 69)%N.

Definition text_of (acc : list ascii) : string :=
  string_of_list_ascii (rev acc).

Fixpoint drop_digits (l : list ascii) : list ascii :=
  match l with
  | c :: l' => if is_digit c then drop_digits l' else l
  | [] => []
  end.

(** An optional exponent (e or E, an optional sign, digits), up to the end. *)
Definition valid_exponent (l : list ascii) : bool :=
  match l with
  | [] => true
  | e :: l1 =>
      if ((code e =? 101) || (code e =? 69))%N then
        let l2 :=
          match l1 with
          | s :: l' => if ((code s =? 43) || (code s =? 45))%N then l' else l1
          | [] => l1
          end in
        match l2 with
        | d :: l3 =>
            is_digit d && match drop_digits l3 with [] => true | _ => false end
        | [] => false
        end
      else false
  end.

(** An optional fraction (a point and digits), then the exponent. *)
Definition valid_fraction (l : list ascii) : bool :=
  match l with
  | p :: l1 =>
      if (code p =? 46)%N then
        match l1 with
        | d :: l2 => is_digit d && valid_exponent (drop_digits l2)
        | [] => false
        end
      else valid_exponent l
  | [] => true
  end.

(** An optional minus, then 0 or digits not starting with 0, then the
    fraction and the exponent. *)
Definition valid_number (l : list ascii) : bool :=
  let l1 :=
    match l with
    | m :: l' => if (code m =? 45)%N then l' else l
    | [] => l
    end in
  match l1 with
  | d :: l2 =>
      if (code d =? 48)%N then valid_fraction l2
      else is_digit d && valid_fraction (drop_digits l2)
  | [] => false
  end.

Definition number_token (acc : list ascii) : option Token :=
  if valid_number (rev acc) then Some (TValue (JNumber (text_of acc))) else None.

Definition word_token (acc : list ascii) : option Token :=
  let w := text_of acc in
  if String.eqb w "true" then Some (TValue (JBool true))
  else if String.eqb w "false" then Some (TValue (JBool false))
  else if String.eqb w "null" then Some (TValue JNull)
  else None.

(** The first character of a token. *)
Definition lex_start (c : ascii) (toks : list Token)
  : option (LexState * list Token) :=
  if is_ws c then Some (LStart, toks)
  else if (code c =? 123)%N then Some (LStart, TLBrace :: toks)
  else if (code c =? 125)%N then Some (LStart, TRBrace :: toks)
  else if (code c =? 91)%N then Some (LStart, TLBracket :: toks)
  else if (code c =? 93)%N then Some (LStart, TRBracket :: toks)
  else if (code c =? 58)%N then Some (LStart, TColon :: toks)
  else if (code c =? 44)%N then Some (LStart, TComma :: toks)
  else if (code c =? 34)%N then Some (LString [] Plain, toks)
  else if is_digit c || (code c =? 45)%N then Some (LNumber [c], toks)
  else if is_lower c then Some (LWord [c], toks)
  else None.

Definition is_escape (c : ascii) : bool :=
  ((code c =? 34) || (code c =? 92) || (code c =? 47) || (code c =? 98)
   || (code c =? 102) || (code c =? 110) || (code c =? 114) || (code c =? 116))%N.

(** The tokens of a JSON text, last token first. *)
Fixpoint lex (st : LexState) (s : string) (toks : list Token)
  : option (list Token) :=
  match s with
  | EmptyString =>
      match st with
      | LStart => Some toks
      | LString _ _ => None
      | LNumber acc => tok ← number_token acc; Some (tok :: toks)
      | LWord acc => tok ← word_token acc; Some (tok :: toks)
      end
  | String c s' =>
      match st with
      | LStart => '(st', toks') ← lex_start c toks; lex st' s' toks'
      | LString acc Plain =>
          if (code c =? 34)%N
          then lex LStart s' (TValue (JString (text_of acc)) :: toks)
          else if (code c =? 92)%N then lex (LString (c :: acc) Escape) s' toks
          else if (code c <? 32)%N then None
          else lex (LString (c :: acc) Plain) s' toks
      | LString acc Escape =>
          if is_escape c then lex (LString (c :: acc) Plain) s' toks
          else if (code c =? 117)%N then lex (LString (c :: acc) (Hex 4)) s' toks
          else None
      | LString acc (Hex n) =>
          if is_hex c then
            lex (LString (c :: acc)
                   (match n with
                    | S (S k) => Hex (S k)
                    | _ => Plain
                    end)) s' toks
          else None
      | LNumber acc =>
          if is_number_char c then lex (LNumber (c :: acc)) s' toks
          else
            tok ← number_token acc;
            '(st', toks') ← lex_start c (tok :: toks);
            lex st' s' toks'
      | LWord acc =>
          if is_lower c then lex (LWord (c :: acc)) s' toks
          else
            tok ← word_token acc;
            '(st', toks') ← lex_start c (tok :: toks);
            lex st' s' toks'
      end
  end.

(** An array or object that is still open. *)
Inductive Frame :=
| FArray (items : list json)
| FObject (members : list (string * json)) (key : option string).

Inductive ParseState :=
| PValue (may_close : bool)
| PAfter
| PKey (may_close : bool)
| PColon
| PDone (v : json).

(** A value is complete: it is the whole text, or goes into the open
    array or object. *)
Definition complete (v : json) (stack : list Frame)
  : option (ParseState * list Frame) :=
  match stack with
  | [] => Some (PDone v, [])
  | FArray items :: st => Some (PAfter, FArray (v :: items) :: st)
  | FObject ms (Some k) :: st => Some (PAfter, FObject ((k, v) :: ms) None :: st)
  | FObject _ None :: _ => None
  end.

Definition parse_step (state : ParseState) (stack : list Frame) (tok : Token)
  : option (ParseState * list Frame) :=
  match state, tok with
  | PValue _, TValue v => complete v stack
  | PValue _, TLBracket => Some (PValue true, FArray [] :: stack)
  | PValue _, TLBrace => Some (PKey true, FObject [] None :: stack)
  | PValue true, TRBracket =>
      match stack with
      | FArray [] :: st => complete (JArray []) st
      | _ => None
      end
  | PAfter, TComma =>
      match stack with
      | FArray _ :: _ => Some (PValue false, stack)
      | FObject _ None :: _ => Some (PKey false, stack)
      | _ => None
      end
  | PAfter, TRBracket =>
      match stack with
      | FArray items :: st => complete (JArray (rev items)) st
      | _ => None
      end
  | PAfter, TRBrace =>
      match stack with
      | FObject ms None :: st => complete (JObject (rev ms)) st
      | _ => None
      end
  | PKey _, TValue (JString k) =>
      match stack with
      | FObject ms None :: st => Some (PColon, FObject ms (Some k) :: st)
      | _ => None
      end
  | PKey true, TRBrace =>
      match stack with
      | FObject [] None :: st => complete (JObject []) st
      | _ => None
      end
  | PColon, TColon => Some (PValue false, stack)
  | _, _ => None
  end.

Fixpoint parse_tokens (state : ParseState) (stack : list Frame)
    (toks : list Token) : option json :=
  match toks with
  | [] => match state with PDone v => Some v | _ => None end
  | tok :: toks' =>
      '(state', stack') ← parse_step state stack tok;
      parse_tokens state' stack' toks'
  end.

(** [JSON.parse(text)]: the value, or a thrown [SyntaxError]. *)
Definition JSON_parse (text : string) : Result json :=
  match toks ← lex LStart text []; parse_tokens (PValue false) [] (rev toks) with
  | Some v => Ok v
  | None => Throw "SyntaxError"
  end.

(** ** The file system *)

Inductive FsNode :=
| File (content : string)
| Directory.

(** [fs.existsSync(path)] *)
Definition existsSync (files : gmap string FsNode) (path : string) : bool :=
  match files !! path with
  | Some _ => true
  | None => false
  end.

(** [fs.readFileSync(path)]; it throws on a missing file and on a
    directory. *)
Definition readFileSync (files : gmap string FsNode) (path : string)
  : Result string :=
  match files !! path with
  | Some (File content) => Ok content
  | Some Directory => Throw "EISDIR"
  | None => Throw "ENOENT"
  end.

(** ** Paths *)

(** The segments of a path: the texts between its slashes. *)
Fixpoint segments (path : string) : list string :=
  match path with
  | EmptyString => [""]
  | String c path' =>
      if Ascii.eqb c "/" then "" :: segments path'
      else
        match segments path' with
        | segment :: rest => String c segment :: rest
        | [] => [String c ""]
        end
  end.

(** The names in a path: its segments that are not empty. *)
Definition names (path : string) : list string :=
  filter (λ segment, segment ≠ "") (segments path).

(** One segment in the loop of [normalizeString]; [res] holds the
    segments kept so far, the last one first.  An empty segment and [.]
    are dropped; [..] removes the segment before it, and is kept only
    when there is none to remove and the path is relative. *)
Definition normalizeSegment (allowAboveRoot : bool) (res : list string)
    (segment : string) : list string :=
  if String.eqb segment "" || String.eqb segment "." then res
  else if String.eqb segment ".." then
    match res with
    | previous :: rest =>
        if String.eqb previous ".."
        then if allowAboveRoot then ".." :: res else res
        else rest
    | [] => if allowAboveRoot then [".."] else []
    end
  else segment :: res.

(** [normalizeString(path, allowAboveRoot, '/', isPosixPathSeparator)] of
    the host's [path] module. *)
Definition normalizeString (path : string) (allowAboveRoot : bool) : string :=
  join "/" (reverse (foldl (normalizeSegment allowAboveRoot) [] (segments path))).

Definition isAbsolute (path : string) : bool := String.prefix "/" path.

Fixpoint endsWithSlash (path : string) : bool :=
  match path with
  | EmptyString => false
  | String c EmptyString => Ascii.eqb c "/"
  | String _ path' => endsWithSlash path'
  end.

(** [path.normalize(path)] *)
Definition path_normalize (path : string) : string :=
  if String.eqb path "" then "."
  else
    let normalized := normalizeString path (negb (isAbsolute path)) in
    if String.eqb normalized "" then
      if isAbsolute path then "/" else if endsWithSlash path then "./" else "."
    else
      (if isAbsolute path then "/" else "")
        +:+ normalized +:+ (if endsWithSlash path then "/" else "").

(** [path.join(dir, name)]: the arguments that are not empty, joined by
    a slash and normalised. *)
Definition path_join (dir name : string) : string :=
  if String.eqb dir "" then
    if String.eqb name "" then "." else path_normalize name
  else if String.eqb name "" then path_normalize dir
  else path_normalize (dir +:+ "/" +:+ name).

(** One argument in the loop of [path.resolve], from the last to the
    first, until the path is absolute. *)
Definition resolveStep (path : string) (resolved : string * bool)
  : string * bool :=
  if resolved.2 || String.eqb path "" then resolved
  else (path +:+ "/" +:+ resolved.1, isAbsolute path).

(** [path.resolve(process.cwd(), p)], where [cwd] is [process.cwd()]: an
    absolute, normalised path without a slash at its end. *)
Definition path_resolve (cwd p : string) : string :=
  let resolved := resolveStep cwd (resolveStep cwd (resolveStep p ("", false))) in
  let normalized := normalizeString resolved.1 (negb resolved.2) in
  if resolved.2 then "/" +:+ normalized
  else if String.eqb normalized "" then "." else normalized.

(** The part of [s] after its last [c], if [c] occurs in [s]. *)
Fixpoint after_last (c : ascii) (s : string) : option string :=
  match s with
  | EmptyString => None
  | String d s' =>
      match after_last c s' with
      | Some r => Some r
      | None => if Ascii.eqb d c then Some s' else None
      end
  end.

(** The last name in a path. *)
Definition basename (p : string) : string := default "" (last (names p)).

(** [path.extname(p)]: from the last dot of the last name, unless that
    dot starts the name or the name is [..]. *)
Definition extname (p : string) : string :=
  let base := basename p in
  match after_last "." base with
  | None => ""
  | Some ext =>
      if (String.length ext + 1 =? String.length base)%nat || String.eqb base ".."
      then ""
      else String "." ext
  end.

(** ** loadExistingComments *)

Definition loadExistingComments (files : gmap string FsNode) (outputDir : string)
  : Result json :=
  let commentsPath := path_join outputDir "comments.json" in
  if existsSync files commentsPath then
    try_catch
      (readFileSync files commentsPath ≫= JSON_parse)
      (Ok emptyObject)
  else Ok emptyObject.

(** ** onEnd: the report data *)

(** [ReportData], declared in [../types]: the fields are those of the
    [reportData] object that [onEnd] builds. *)
Module ReportData.
Record t := mk {
  timestamp : string;
  totalTests : nat;
  passed : nat;
  failed : nat;
  skipped : nat;
  duration : Z;
  tests : list TestEntry.t;
  comments : json;
}.
End ReportData.

(** The [reportData] object of [onEnd], built over the sorted [tests]. *)
Definition reportData (tests : list TestEntry.t) (timestamp : string)
    (duration : Z) (comments : json) : ReportData.t :=
  {| ReportData.timestamp := timestamp;
     ReportData.totalTests := length tests;
     ReportData.passed :=
       length (filter (λ t, TestEntry.status t = passed) tests);
     ReportData.failed :=
       length (filter (λ t, TestEntry.status t = failed
                            ∨ TestEntry.status t = timedOut) tests);
     ReportData.skipped :=
       length (filter (λ t, TestEntry.status t = skipped) tests);
     ReportData.duration := duration;
     ReportData.tests := tests;
     ReportData.comments := comments |}.

(** [onEnd] up to the report data: the sort of [this.tests] in place, the
    duration since [startTime], the counts and the comments.  [now] is
    [Date.now()] and [timestamp] is [new Date().toISOString()].  It
    returns the [tests] array as the sort leaves it, and the data. *)
Definition onEnd (tests : list TestEntry.t) (startTime now : Z)
    (timestamp : string) (files : gmap string FsNode) (outputDir : string)
  : list TestEntry.t * Result ReportData.t :=
  let duration := now - startTime in
  let tests := sortTests tests in
  (tests,
   comments ← loadExistingComments files outputDir;
   Ok (reportData tests timestamp duration comments)).

(** ** String replacement *)

Fixpoint sdrop (n : nat) (s : string) : string :=
  match n, s with
  | S n', String _ s' => sdrop n' s'
  | _, _ => s
  end.

Fixpoint stake (n : nat) (s : string) : string :=
  match n, s with
  | S n', String c s' => String c (stake n' s')
  | _, _ => ""
  end.

(** [s.indexOf(pattern)]; [None] stands for -1. *)
Fixpoint indexOf (pattern s : string) : option nat :=
  if String.prefix pattern s then Some 0%nat
  else
    match s with
    | EmptyString => None
    | String _ s' => S <$> indexOf pattern s'
    end.

(** The replacement text of [String.prototype.replace] when the
    replacement is a string (GetSubstitution, for a pattern without
    capture groups): in the replacement, [$$] stands for a dollar sign,
    [$&] for the matched text, [$`] for the text before the match and
    [$'] for the text after it; every other character stands for itself. *)
Fixpoint getSubstitution (matched preceding following replacement : string)
  : string :=
  match replacement with
  | EmptyString => ""
  | String c r =>
      if Ascii.eqb c "$" then
        match r with
        | String d r' =>
            if Ascii.eqb d "$" then
              String "$" (getSubstitution matched preceding following r')
            else if Ascii.eqb d "&" then
              matched +:+ getSubstitution matched preceding following r'
            else if Ascii.eqb d "`" then
              preceding +:+ getSubstitution matched preceding following r'
            else if Ascii.eqb d "'" then
              following +:+ getSubstitution matched preceding following r'
            else String c (getSubstitution matched preceding following r)
        | EmptyString => String c ""
        end
      else String c (getSubstitution matched preceding following r)
  end.

(** [s.replace(searchValue, replaceValue)] with a string [searchValue]:
    only the first occurrence is replaced. *)
Definition replace (searchValue replaceValue s : string) : string :=
  match indexOf searchValue s with
  | None => s
  | Some position =>
      let preceding := stake position s in
      let following := sdrop (position + String.length searchValue) s in
      preceding
        +:+ getSubstitution searchValue preceding following replaceValue
        +:+ following
  end.

(** The scan of [replaceGlobal]: [preceding] is the text already passed,
    [skip] the number of characters of the last match still to pass. *)
Fixpoint replaceGlobal_from (pattern replaceValue : string) (skip : nat)
    (preceding s : string) : string :=
  match s with
  | EmptyString => ""
  | String c s' =>
      match skip with
      | S k =>
          replaceGlobal_from pattern replaceValue k
            (preceding +:+ String c "") s'
      | O =>
          if String.prefix pattern s then
            getSubstitution pattern preceding
              (sdrop (String.length pattern) s) replaceValue
            +:+ replaceGlobal_from pattern replaceValue
                  (String.length pattern - 1) (preceding +:+ String c "") s'
          else
            String c
              (replaceGlobal_from pattern replaceValue 0
                 (preceding +:+ String c "") s')
      end
  end.

(** [s.replace(/pattern/g, replaceValue)] for a regular expression that
    matches the fixed, non-empty text [pattern]: every match, from left to
    right and without overlap, is replaced. *)
Definition replaceGlobal (pattern replaceValue s : string) : string :=
  replaceGlobal_from pattern replaceValue 0 "" s.

(** ** Options *)

(** [ReporterOptions]: what the configuration may give. *)
Record ReporterOptions := mkReporterOptions {
  opt_outputDir : option string;
  opt_outputFile : option string;
  opt_open : option bool;
  opt_title : option string;
  opt_logo : option string;
}.

(** [Required<ReporterOptions>]: the options after the constructor. *)
Module Options.
Record t := mk {
  outputDir : string;
  outputFile : string;
  open : bool;
  title : string;
  logo : string;
}.
End Options.

(** [value || fallback] *)
Definition or_else (value : option string) (fallback : string) : string :=
  if truthy_opt value then default "" value else fallback.

(** The [this.options] of the constructor. *)
Definition resolveOptions (options : ReporterOptions) : Options.t :=
  {| Options.outputDir := or_else (opt_outputDir options) "craft-report";
     Options.outputFile := or_else (opt_outputFile options) "report.html";
     Options.open := default false (opt_open options);
     Options.title := or_else (opt_title options) "Craft Test Report";
     Options.logo := or_else (opt_logo options) "" |}.

(** ** The logo *)

(** The base64 digit of a number below 64. *)
Definition base64_digit (n : N) : ascii :=
  if (n <? 26)%N then ascii_of_N (65 + n)
  else if (n <? 52)%N then ascii_of_N (97 + (n - 26))
  else if (n <? 62)%N then ascii_of_N (48 + (n - 52))
  else if (n =? 62)%N then "+"%char
  else "/"%char.

(** [buffer.toString('base64')] *)
Fixpoint base64 (bytes : string) : string :=
  match bytes with
  | EmptyString => ""
  | String a EmptyString =>
      let n := (code a * 65536)%N in
      String (base64_digit (n / 262144)) (String (base64_digit (n / 4096 mod 64)) "==")
  | String a (String b EmptyString) =>
      let n := (code a * 65536 + code b * 256)%N in
      String (base64_digit (n / 262144))
        (String (base64_digit (n / 4096 mod 64))
           (String (base64_digit (n / 64 mod 64)) "="))
  | String a (String b (String c rest)) =>
      let n := (code a * 65536 + code b * 256 + code c)%N in
      String (base64_digit (n / 262144))
        (String (base64_digit (n / 4096 mod 64))
           (String (base64_digit (n / 64 mod 64))
              (String (base64_digit (n mod 64)) (base64 rest))))
  end.

(** The [mimeType] conditional of [generateHTMLReport]. *)
Definition mimeType (ext : string) : string :=
  if String.eqb ext ".png" then "image/png"
  else if String.eqb ext ".jpg" || String.eqb ext ".jpeg" then "image/jpeg"
  else if String.eqb ext ".svg" then "image/svg+xml"
  else "image/png".

(** The [<img>] element for a logo file. *)
Definition logoImg (logoPath content : string) : string :=
  let logoBase64 := base64 content in
  let ext := toLowerCase (extname logoPath) in
  "<img src=" +:+ DQ +:+ "data:" +:+ mimeType ext +:+ ";base64," +:+ logoBase64
    +:+ DQ +:+ " alt=" +:+ DQ +:+ "Logo" +:+ DQ +:+ ">".

(** The [logoHtml] variable of [generateHTMLReport]. *)
Definition logoHtml (files : gmap string FsNode) (cwd logo : string)
  : Result string :=
  if truthy logo then
    let logoPath := path_resolve cwd logo in
    if existsSync files logoPath then
      logoBuffer ← readFileSync files logoPath;
      Ok (logoImg logoPath logoBuffer)
    else Ok ""
  else Ok "".

(** ** The template *)

Definition STYLES_MARKER : string := "/* INJECT_STYLES */".
Definition SCRIPT_MARKER : string := "/* INJECT_SCRIPT */".
Definition DATA_MARKER : string := "/* INJECT_DATA */".
Definition TITLE_PLACEHOLDER : string := "{{TITLE}}".
Definition LOGO_MARKER : string := "<!-- INJECT_LOGO -->".

(** The chain of [replace] calls that injects styles, script, data, title
    and logo; [data] is [JSON.stringify(data)]. *)
Definition injectTemplate (template css js data title logo : string) : string :=
  replace LOGO_MARKER logo
    (replaceGlobal TITLE_PLACEHOLDER title
       (replace DATA_MARKER data
          (replace SCRIPT_MARKER js
             (replace STYLES_MARKER css template)))).

Definition getDefaultTemplate : string :=
  join LF
    [ "<!DOCTYPE html>";
      "<html lang=" +:+ DQ +:+ "en" +:+ DQ +:+ ">";
      "<head>";
      "  <meta charset=" +:+ DQ +:+ "UTF-8" +:+ DQ +:+ ">";
      "  <meta name=" +:+ DQ +:+ "viewport" +:+ DQ +:+ " content=" +:+ DQ
        +:+ "width=device-width, initial-scale=1.0" +:+ DQ +:+ ">";
      "  <title>{{TITLE}}</title>";
      "  <script src=" +:+ DQ
        +:+ "https://cdn.jsdelivr.net/npm/chart.js@4.4.1/dist/chart.umd.min.js"
        +:+ DQ +:+ "></script>";
      "  <style>/* INJECT_STYLES */</style>";
      "</head>";
      "<body>";
      "  <div id=" +:+ DQ +:+ "app" +:+ DQ +:+ ">Loading report...</div>";
      "  <script>";
      "    const REPORT_DATA = /* INJECT_DATA */;";
      "    /* INJECT_SCRIPT */";
      "  </script>";
      "</body>";
      "</html>" ].

(** [fs.existsSync(p) ? fs.readFileSync(p, 'utf-8') : fallback] *)
Definition readOr (files : gmap string FsNode) (p fallback : string)
  : Result string :=
  if existsSync files p then readFileSync files p else Ok fallback.

(** The template, the stylesheet and the script that
    [generateHTMLReport] reads: [template], [css] and [js].  [dirname] is
    [__dirname]. *)
Definition readTemplate (files : gmap string FsNode) (dirname : string)
  : Result (string * string * string) :=
  let templatePath := path_join dirname "../html/template.html" in
  let cssPath := path_join dirname "../html/styles.css" in
  let jsPath := path_join dirname "../html/report.js" in
  if existsSync files templatePath then
    template ← readFileSync files templatePath;
    css ← readOr files cssPath "";
    js ← readOr files jsPath "";
    Ok (template, css, js)
  else
    let srcTemplatePath := path_join dirname "../../src/html/template.html" in
    let srcCssPath := path_join dirname "../../src/html/styles.css" in
    let srcJsPath := path_join dirname "../../src/html/report.js" in
    template ← readOr files srcTemplatePath getDefaultTemplate;
    css ← readOr files srcCssPath "";
    js ← readOr files srcJsPath "";
    Ok (template, css, js).

(** [generateHTMLReport] up to its last statement: the rendered document
    and the path it is written to.  [data] is [JSON.stringify(data)]. *)
Definition generateHTMLReport (files : gmap string FsNode)
    (dirname cwd outputDir : string) (options : Options.t) (data : string)
  : Result (string * string) :=
  '(template, css, js) ← readTemplate files dirname;
  logo ← logoHtml files cwd (Options.logo options);
  let html := injectTemplate template css js data (Options.title options) logo in
  let outputPath := path_join outputDir (Options.outputFile options) in
  Ok (outputPath, html).


(** ** Vocabulary of the properties *)

(** The lower-cased kind and the value ([description || '']) of an
    annotation. *)
Definition kindOf (annotation : Annotation) : string :=
  toLowerCase (ann_type annotation).

Definition valueOf (annotation : Annotation) : string :=
  default "" (ann_description annotation).

(** The value of the last annotation of a kind. *)
Definition lastValue (kind : string) (annotations : list Annotation)
  : option string :=
  last (valueOf <$> filter (λ a, kindOf a = kind) annotations).

(** The kinds the [switch] names. *)
Definition recognized : list string :=
  ["epic"; "feature"; "story"; "suite"; "subsuite"; "parentsuite";
   "severity"; "owner"; "tag"; "description"].

(** The single-valued kinds, each with the field it sets. *)
Definition singleValued : list (string * (TestMetadata → option string)) :=
  [("epic", epic); ("feature", feature); ("story", story); ("suite", suite);
   ("subsuite", subSuite); ("parentsuite", parentSuite);
   ("severity", severity); ("owner", owner); ("description", description)].

(** The value stored in [parameters] under a key, if any. *)
Definition parameter (metadata : TestMetadata) (key : string) : option string :=
  parameters metadata ≫= (.!! key).





(** No dollar sign occurs in the text. *)
Fixpoint no_dollar (s : string) : bool :=
  match s with
  | EmptyString => true
  | String c r => negb (Ascii.eqb c "$") && no_dollar r
  end.

(** A test in [example.spec.ts] and a result, for concrete runs. *)
Definition exampleTest (id title : string) (annotations : list Annotation)
  : TestCase.t :=
  TestCase.mk id title ["example.spec.ts"; title] annotations "example.spec.ts" 1.

Definition exampleResult (status : TestStatus) (duration : Z)
    (errors : list TestError.t) (retry : Z) : TestResult.t :=
  TestResult.mk status duration errors "2024-01-01T00:00:00.000Z" retry.

(** The run of the end-to-end scenario: [t1] passes, [t2] fails and passes
    on retry, [t3] is skipped. *)
Definition scenario : list (TestCase.t * TestResult.t) :=
  [ (exampleTest "id-1" "t1" [], exampleResult passed 500 [] 0);
    (exampleTest "id-2" "t2" [],
     exampleResult failed 200 [TestError.mk (Some "assert false") None] 0);
    (exampleTest "id-2" "t2" [], exampleResult passed 150 [] 1);
    (exampleTest "id-3" "t3" [], exampleResult skipped 0 [] 0) ].

(** ** More of the reporter: the files [onEnd] writes *)

(** The file system is a POSIX one without links: an entry is a file or
    a directory, and it is known by its absolute, normalised path, names
    compared as they are written; the root directory is the entry of the
    path [/]. *)

(** The path of the directory that holds the entry of a path. *)
Definition parentPath (path : string) : string :=
  "/" +:+ join "/" (removelast (names path)).

(** The paths of the directories on the way to [path], from the one
    below the root down to [path] itself; [base] is the path so far. *)
Fixpoint descend (base : string) (names : list string) : list string :=
  match names with
  | [] => []
  | name :: rest =>
      let path := base +:+ "/" +:+ name in
      path :: descend path rest
  end.

Definition ancestors (path : string) : list string := descend "" (names path).

Definition isFile (node : option FsNode) : bool :=
  match node with
  | Some (File _) => true
  | _ => false
  end.

(** [fs.mkdirSync(path, { recursive: true })]: every directory on the
    way to [path] that is missing is created, and [path] itself; it
    throws when [path] or a directory on the way to it is a file. *)
Definition mkdirSync (files : gmap string FsNode) (path : string)
  : Result (gmap string FsNode) :=
  if existsb (λ p, isFile (files !! p)) (ancestors path) then
    Throw (if isFile (last (ancestors path) ≫= (files !!.)) then "EEXIST"
           else "ENOTDIR")
  else Ok (foldr (λ p files, <[p := Directory]> files) files (ancestors path)).

(** [fs.writeFileSync(path, content)]: the file is created or replaced.
    It throws when [path] ends with a slash or is a directory, and when
    the directory that is to hold the file is missing or is a file.  The
    failures of the host that depend on more than the entries
    (permissions, a full disk) are outside this model. *)
Definition writeFileSync (files : gmap string FsNode) (path content : string)
  : Result (gmap string FsNode) :=
  if endsWithSlash path then Throw "EISDIR"
  else
    match files !! path with
    | Some Directory => Throw "EISDIR"
    | _ =>
        match files !! parentPath path with
        | Some Directory => Ok (<[path := File content]> files)
        | Some (File _) => Throw "ENOTDIR"
        | None => Throw "ENOENT"
        end
    end.

(** [generateHTMLReport] with its last statement: the document is
    rendered and written to the output path. *)
Definition writeHTMLReport (files : gmap string FsNode)
    (dirname cwd outputDir : string) (options : Options.t) (data : string)
  : Result (gmap string FsNode) :=
  '(outputPath, html) ←
    generateHTMLReport files dirname cwd outputDir options data;
  writeFileSync files outputPath html.

(** [onEnd] on the file system: the comments are loaded, the output
    directory is created if it is missing, the document is rendered and
    written, then the data file.  [stringify] is [JSON.stringify(data)]
    and [stringifyPretty] is [JSON.stringify(data, null, 2)], the host's
    serialisations of the report data.  The console output and the launch
    of a viewer are left out. *)
Definition onEndFiles (stringify stringifyPretty : ReportData.t → string)
    (tests : list TestEntry.t) (startTime now : Z)
    (timestamp : string) (files : gmap string FsNode)
    (dirname cwd outputDir : string) (options : Options.t)
  : Result (gmap string FsNode) :=
  reportData ← (onEnd tests startTime now timestamp files outputDir).2;
  files ←
    (if existsSync files outputDir then Ok files else mkdirSync files outputDir);
  files ←
    writeHTMLReport files dirname cwd outputDir options (stringify reportData);
  let jsonPath := path_join outputDir "report-data.json" in
  writeFileSync files jsonPath (stringifyPretty reportData).

(** ** More vocabulary *)

(** The identities of the calls, each once, in the order of their first
    call. *)
Definition distinctIds (calls : list (TestCase.t * TestResult.t)) : list string :=
  reverse (remove_dups (reverse (callId <$> calls))).

(** The last call made for an identity. *)
Definition lastOutcome (id : string) (calls : list (TestCase.t * TestResult.t))
  : option (TestCase.t * TestResult.t) :=
  last (filter (λ c, callId c = id) calls).

(** An entry is the entry of the last call made for an identity. *)
Definition entryOfLast (calls : list (TestCase.t * TestResult.t))
    (e : TestEntry.t) (id : string) : Prop :=
  TestEntry.testId e = id
  ∧ (λ c, makeEntry c.1 c.2) <$> lastOutcome id calls = Some e.


(** The paths that [generateHTMLReport] reads when they exist: the
    template, the stylesheet and the script, next to the compiled
    reporter if the template is there and in the source tree otherwise,
    and the logo if one is configured. *)
Definition consulted (files : gmap string FsNode) (dirname cwd : string)
    (options : Options.t) : list string :=
  (if existsSync files (path_join dirname "../html/template.html")
   then [path_join dirname "../html/template.html";
         path_join dirname "../html/styles.css";
         path_join dirname "../html/report.js"]
   else [path_join dirname "../../src/html/template.html";
         path_join dirname "../../src/html/styles.css";
         path_join dirname "../../src/html/report.js"])
  ++ (if truthy (Options.logo options)
      then [path_resolve cwd (Options.logo options)] else []).

(** [files'] is [files] with some directories added where nothing was. *)
Definition withDirectories (files files' : gmap string FsNode) : Prop :=
  ∀ p, files' !! p = files !! p
       ∨ (files !! p = None ∧ files' !! p = Some Directory).

(** ** Tactics *)

(** Case analysis along the [switch] of [applyAnnotation]. *)
Ltac dispatch k tac :=
  repeat match goal with
    | |- context [String.eqb k ?y] =>
        destruct (String.eqb_spec k y) as [->|?]; [tac|]
    end.

(** * Properties *)

(** ** Strings *)

Lemma append_String (c : ascii) (a b : string) :
  String c a +:+ b = String c (a +:+ b).
Proof. reflexivity. Qed.

Lemma append_nil_l (a : string) : "" +:+ a = a.
Proof. reflexivity. Qed.

Ltac simpl_append := simpl; rewrite ?append_String, ?append_nil_l; simpl.

Lemma append_assoc (a b c : string) : (a +:+ b) +:+ c = a +:+ (b +:+ c).
Proof. induction a as [|x a IH]; simpl_append; [done|]. by rewrite IH. Qed.

Lemma append_nil_r (a : string) : a +:+ "" = a.
Proof. induction a as [|x a IH]; simpl_append; [done|]. by rewrite IH. Qed.

Lemma prefix_append (p r : string) : String.prefix p (p +:+ r) = true.
Proof.
  induction p as [|x p IH]; simpl_append; [by destruct r|].
  destruct (ascii_dec x x); [done|congruence].
Qed.

Lemma prefix_split (p s : string) :
  String.prefix p s = true → s = p +:+ sdrop (String.length p) s.
Proof.
  revert s. induction p as [|x p IH]; intros s; [destruct s; intros; reflexivity|].
  destruct s as [|y s]; simpl; [done|].
  destruct (ascii_dec x y) as [->|]; [|done].
  intros H. simpl_append. f_equal. by apply IH.
Qed.

Lemma stake_append (pre r : string) : stake (String.length pre) (pre +:+ r) = pre.
Proof. induction pre as [|x pre IH]; simpl_append; [by destruct r|]. by rewrite IH. Qed.

Lemma sdrop_append (pre r : string) (n : nat) :
  sdrop (String.length pre + n) (pre +:+ r) = sdrop n r.
Proof. induction pre as [|x pre IH]; simpl_append; done. Qed.

Lemma indexOf_unfold (pattern s : string) :
  indexOf pattern s
  = if String.prefix pattern s then Some 0%nat
    else match s with
         | EmptyString => None
         | String _ s' => S <$> indexOf pattern s'
         end.
Proof. by destruct s. Qed.

(** [indexOf] finds an occurrence, and it is the first one. *)
Lemma indexOf_Some (pattern s : string) (i : nat) :
  indexOf pattern s = Some i →
  s = stake i s +:+ pattern +:+ sdrop (i + String.length pattern) s
  ∧ ∀ j, (j < i)%nat → String.prefix pattern (sdrop j s) = false.
Proof.
  revert i. induction s as [|c s IH]; intros i; rewrite indexOf_unfold.
  - destruct (String.prefix pattern "") eqn:E; [|done].
    intros [= <-]. split; [|lia]. by apply prefix_split in E.
  - destruct (String.prefix pattern (String c s)) eqn:E.
    + intros [= <-]. split; [|lia]. by apply prefix_split in E.
    + destruct (indexOf pattern s) as [k|] eqn:Ek; [|done].
      intros [= <-]. destruct (IH k eq_refl) as [H1 H2]. split.
      * simpl_append. by rewrite <- H1.
      * intros [|j] Hj; simpl; [done|]. apply H2. lia.
Qed.

Lemma indexOf_None (pattern s : string) :
  indexOf pattern s = None → ∀ j, String.prefix pattern (sdrop j s) = false.
Proof.
  induction s as [|c s IH]; rewrite indexOf_unfold.
  - destruct (String.prefix pattern "") eqn:E; [done|]. intros _ j. by destruct j.
  - destruct (String.prefix pattern (String c s)) eqn:E; [done|].
    destruct (indexOf pattern s) as [k|] eqn:Ek; [done|].
    intros _ [|j]; simpl; [done|]. by apply IH.
Qed.

(** ** Sorting *)

Section SortFacts.
Context {A : Type} (compareFn : A → A → Z).

Lemma sort_insert_Permutation x l : sort_insert compareFn x l ≡ₚ x :: l.
Proof.
  induction l as [|y l IH]; simpl; [done|].
  case_match; [done|]. rewrite IH. apply Permutation_swap.
Qed.

Lemma sort_Permutation l : sort compareFn l ≡ₚ l.
Proof.
  induction l as [|x l IH]; simpl; [done|].
  fold (sort compareFn l). by rewrite sort_insert_Permutation, IH.
Qed.

Hypothesis compare_total : ∀ x y, 0 < compareFn x y → compareFn y x ≤ 0.
Hypothesis compare_trans :
  ∀ x y z, compareFn x y ≤ 0 → compareFn y z ≤ 0 → compareFn x z ≤ 0.
Hypothesis compare_ties :
  ∀ k x y, compareFn k x = 0 → compareFn k y = 0 → compareFn x y ≤ 0.

Lemma sort_insert_sorted x l :
  StronglySorted (λ a b, compareFn a b ≤ 0) l →
  StronglySorted (λ a b, compareFn a b ≤ 0) (sort_insert compareFn x l).
Proof using compare_total compare_trans.
  induction 1 as [|y l Hl IH Hy]; simpl.
  - repeat constructor.
  - destruct (Z.leb_spec (compareFn x y) 0) as [Hle|Hgt].
    + constructor; [by constructor|].
      constructor; [done|].
      eapply Forall_impl; [exact Hy|]. intros z Hz. by eapply compare_trans.
    + constructor; [done|].
      rewrite sort_insert_Permutation. constructor; [|done].
      by apply compare_total.
Qed.

Lemma sort_sorted l :
  StronglySorted (λ a b, compareFn a b ≤ 0) (sort compareFn l).
Proof using compare_total compare_trans.
  induction l as [|x l IH]; simpl; [constructor|].
  by apply sort_insert_sorted.
Qed.


End SortFacts.

Lemma compareElement_refl x : compareElement x x = Eq.
Proof. unfold compareElement. by rewrite !N.compare_refl. Qed.

Lemma compareElement_Eq x y : compareElement x y = Eq → x = y.
Proof.
  destruct x as [a b], y as [c d]. unfold compareElement. simpl.
  destruct (N.compare_spec a c); try done.
  intros ?%N.compare_eq_iff. congruence.
Qed.

Lemma compareElement_Lt_trans x y z :
  compareElement x y = Lt → compareElement y z = Lt → compareElement x z = Lt.
Proof.
  destruct x as [a b], y as [c d], z as [e f]. unfold compareElement. simpl.
  destruct (N.compare_spec a c), (N.compare_spec c e), (N.compare_spec a e);
    rewrite ?N.compare_lt_iff; try done; lia.
Qed.

Lemma compareElement_antisym x y :
  compareElement y x = CompOpp (compareElement x y).
Proof.
  destruct x as [a b], y as [c d]. unfold compareElement. simpl.
  rewrite (N.compare_antisym a c), (N.compare_antisym b d).
  by destruct (a ?= c)%N.
Qed.



Lemma compareElements_antisym k1 k2 :
  compareElements k2 k1 = CompOpp (compareElements k1 k2).
Proof.
  revert k2. induction k1 as [|x k1 IH]; intros [|y k2]; simpl; try done.
  rewrite (compareElement_antisym x y). destruct (compareElement x y); simpl; auto.
Qed.

Lemma compareElements_trans k1 k2 k3 :
  compareElements k1 k2 ≠ Gt → compareElements k2 k3 ≠ Gt →
  compareElements k1 k3 ≠ Gt.
Proof.
  revert k2 k3. induction k1 as [|x k1 IH]; intros [|y k2] [|z k3]; simpl; try done.
  destruct (compareElement x y) eqn:Exy; try done;
    destruct (compareElement y z) eqn:Eyz; try done; intros H1 H2.
  - apply compareElement_Eq in Exy, Eyz. subst. rewrite compareElement_refl. eauto.
  - apply compareElement_Eq in Exy. subst. by rewrite Eyz.
  - apply compareElement_Eq in Eyz. subst. by rewrite Exy.
  - by rewrite (compareElement_Lt_trans x y z).
Qed.

Lemma localeCompare_le a b :
  localeCompare a b ≤ 0 ↔
  compareElements (collationElements None a) (collationElements None b) ≠ Gt.
Proof. unfold localeCompare. destruct (compareElements _ _); split; (done || lia). Qed.


Lemma localeCompare_total a b : 0 < localeCompare a b → localeCompare b a ≤ 0.
Proof.
  unfold localeCompare. rewrite (compareElements_antisym (collationElements None a)).
  destruct (compareElements _ _); simpl; lia.
Qed.

Lemma localeCompare_trans a b c :
  localeCompare a b ≤ 0 → localeCompare b c ≤ 0 → localeCompare a c ≤ 0.
Proof. rewrite !localeCompare_le. apply compareElements_trans. Qed.















(** ** Retry collapse *)

Lemma makeEntry_testId test result :
  TestEntry.testId (makeEntry test result) = TestCase.id test.
Proof. reflexivity. Qed.

Lemma findIndex_Some id tests i :
  findIndex id tests = Some i ↔
  ∃ e, tests !! i = Some e ∧ TestEntry.testId e = id
       ∧ ∀ j y, tests !! j = Some y → (j < i)%nat → TestEntry.testId y ≠ id.
Proof.
  unfold findIndex. split.
  - intros H. destruct (list_find _ tests) as [[k e]|] eqn:E; simplify_eq/=.
    apply list_find_Some in E. naive_solver.
  - intros (e & H1 & H2 & H3).
    assert (list_find (λ t, TestEntry.testId t = id) tests = Some (i, e)) as ->; [|done].
    apply list_find_Some. naive_solver.
Qed.

Lemma findIndex_None id tests :
  findIndex id tests = None ↔ id ∉ (TestEntry.testId <$> tests).
Proof.
  unfold findIndex. rewrite fmap_None, list_find_None, Forall_forall.
  rewrite list_elem_of_fmap. naive_solver.
Qed.

Lemma findIndex_NoDup id tests n e :
  NoDup ((TestEntry.testId <$> tests)) → tests !! n = Some e → TestEntry.testId e = id →
  findIndex id tests = Some n.
Proof.
  intros Hnd Hn He. apply findIndex_Some. exists e. split_and!; [done..|].
  intros j y Hj Hlt Hy.
  assert (j = n); [|lia].
  eapply (NoDup_lookup ((TestEntry.testId <$> tests)) j n id); [done| |].
  - by rewrite list_lookup_fmap, Hj; simpl; rewrite Hy.
  - by rewrite list_lookup_fmap, Hn; simpl; rewrite He.
Qed.

Lemma onTestEnd_ids tests test result :
  (TestEntry.testId <$> onTestEnd tests test result) =
  if decide (TestCase.id test ∈ (TestEntry.testId <$> tests)) then (TestEntry.testId <$> tests)
  else (TestEntry.testId <$> tests) ++ [TestCase.id test].
Proof.
  unfold onTestEnd. destruct (findIndex _ tests) as [i|] eqn:E.
  - apply findIndex_Some in E as (e & Hi & He & _).
    rewrite decide_True.
    + rewrite list_fmap_insert. apply list_insert_id.
      by rewrite list_lookup_fmap, Hi; simpl; rewrite He.
    + apply list_elem_of_fmap. exists e. split; [done|]. by eapply list_elem_of_lookup_2.
  - apply findIndex_None in E. rewrite decide_False by done.
    by rewrite fmap_app.
Qed.

Lemma onTestEnd_NoDup tests test result :
  NoDup ((TestEntry.testId <$> tests)) → NoDup ((TestEntry.testId <$> onTestEnd tests test result)).
Proof.
  intros Hnd. rewrite onTestEnd_ids. case_decide; [done|].
  apply NoDup_app. split_and!; [done| |apply NoDup_singleton].
  intros x Hx ->%list_elem_of_singleton. done.
Qed.

Lemma run_NoDup calls tests :
  NoDup ((TestEntry.testId <$> tests)) → NoDup ((TestEntry.testId <$> run tests calls)).
Proof.
  revert tests. induction calls as [|c calls IH]; intros tests Hnd; [done|].
  simpl. apply IH. by apply onTestEnd_NoDup.
Qed.

Lemma run_ids_subseteq calls tests x :
  x ∈ (TestEntry.testId <$> run tests calls) → x ∈ (TestEntry.testId <$> tests) ∨ x ∈ callId <$> calls.
Proof.
  revert tests. induction calls as [|c calls IH]; intros tests; simpl; [auto|].
  intros [H|H]%IH; [|right; by constructor].
  rewrite onTestEnd_ids in H. case_decide; [auto|].
  apply elem_of_app in H as [H| ->%list_elem_of_singleton]; [auto|].
  right. constructor.
Qed.

(** The entry of one identity keeps its index and holds the last outcome. *)
Lemma run_lookup id calls tests n e :
  NoDup ((TestEntry.testId <$> tests)) → tests !! n = Some e → TestEntry.testId e = id →
  run tests calls !! n =
    Some (from_option (λ c, makeEntry c.1 c.2) e
            (last (filter (λ c, callId c = id) calls))).
Proof.
  revert tests e. induction calls as [|c calls IH]; intros tests e Hnd Hn He; [done|].
  simpl. rewrite filter_cons. case_decide as Hc.
  - pose proof (findIndex_NoDup _ _ _ _ Hnd Hn He) as Hf.
    erewrite (IH _ (makeEntry c.1 c.2)).
    + rewrite last_cons. by destruct (last _).
    + by apply onTestEnd_NoDup.
    + unfold onTestEnd. unfold callId in Hc. rewrite Hc, Hf.
      apply list_lookup_insert_eq. by eapply lookup_lt_Some.
    + done.
  - apply IH; [by apply onTestEnd_NoDup| |done].
    unfold onTestEnd. destruct (findIndex _ tests) as [i|] eqn:E.
    + rewrite list_lookup_insert_ne; [done|]. intros ->.
      apply findIndex_Some in E as (e' & Hi & He' & _). unfold callId in Hc. congruence.
    + by apply lookup_app_l_Some.
Qed.

Lemma filter_absent (tests : list TestEntry.t) id :
  id ∉ (TestEntry.testId <$> tests) → filter (λ x, TestEntry.testId x = id) tests = [].
Proof.
  induction tests as [|x tests IH]; [done|]. simpl.
  intros [Hx Hin]%not_elem_of_cons. rewrite filter_cons.
  rewrite decide_False by done. auto.
Qed.

Lemma filter_NoDup_lookup (tests : list TestEntry.t) n e :
  NoDup ((TestEntry.testId <$> tests)) → tests !! n = Some e →
  filter (λ x, TestEntry.testId x = TestEntry.testId e) tests = [e].
Proof.
  revert n. induction tests as [|x tests IH]; intros n Hnd Hn; [done|].
  simpl in Hnd. apply NoDup_cons in Hnd as [Hx Hnd]. rewrite filter_cons.
  destruct n as [|n]; simplify_eq/=.
  - rewrite decide_True by done. f_equal. by apply filter_absent.
  - rewrite decide_False; [by eapply IH|].
    intros Heq. apply Hx. rewrite Heq.
    apply list_elem_of_fmap. exists e. split; [done|]. by eapply list_elem_of_lookup_2.
Qed.

Lemma run_app tests calls1 calls2 :
  run tests (calls1 ++ calls2) = run (run tests calls1) calls2.
Proof. apply foldl_app. Qed.

(** C1 (retry collapse).  Take any sequence of [onTestEnd] calls on a
    fresh reporter and a call in it that is the first one for its test
    identity.  After every call of the sequence no two entries share a
    [testId]; at the end exactly one entry has that identity, it is the
    entry of the last call made for it, and it stands at the index where
    the first call inserted it. *)
Theorem retry_collapse (pre post : list (TestCase.t * TestResult.t))
    (test : TestCase.t) (result : TestResult.t) :
  TestCase.id test ∉ callId <$> pre →
  let id := TestCase.id test in
  let calls := pre ++ (test, result) :: post in
  let tests := record calls in
  let On := default (test, result) (last (filter (λ c, callId c = id) post)) in
  (∀ k, NoDup (TestEntry.testId <$> record (take k calls)))
  ∧ filter (λ e, TestEntry.testId e = id) tests = [makeEntry On.1 On.2]
  ∧ tests !! length (record pre) = Some (makeEntry On.1 On.2).
Proof.
  intros Hfresh id calls tests On.
  assert (NoDup (TestEntry.testId <$> tests)) as Hnd
    by (apply run_NoDup; constructor).
  assert (tests !! length (record pre) = Some (makeEntry On.1 On.2)) as Hn.
  { subst tests calls. unfold record. rewrite run_app. simpl.
    set (S0 := run [] pre).
    assert (id ∉ TestEntry.testId <$> S0) as Hno.
    { intros [H|H]%run_ids_subseteq; [by apply elem_of_nil in H|done]. }
    assert (onTestEnd S0 test result = S0 ++ [makeEntry test result]) as ->.
    { unfold onTestEnd. apply findIndex_None in Hno. fold id. by rewrite Hno. }
    fold (run (S0 ++ [makeEntry test result]) post).
    erewrite (run_lookup id post _ _ (makeEntry test result)); [| | |done].
    - subst On. by destruct (last _).
    - rewrite fmap_app. apply NoDup_app. split_and!.
      + apply run_NoDup. constructor.
      + intros x Hx ->%list_elem_of_singleton. done.
      + apply NoDup_singleton.
    - by rewrite lookup_app_r, Nat.sub_diag. }
  split_and!; [|  |done].
  - intros k. apply run_NoDup. constructor.
  - assert (TestEntry.testId (makeEntry On.1 On.2) = id) as Hid.
    { subst On. destruct (last _) as [c|] eqn:E; [|done]. simpl.
      apply last_Some_elem_of in E. apply list_elem_of_filter in E as [E _]. done. }
    rewrite <- Hid. by eapply filter_NoDup_lookup.
Qed.

Lemma retry_collapse_witness :
  record scenario !! 1%nat
  = Some (makeEntry (exampleTest "id-2" "t2" []) (exampleResult passed 150 [] 1)).
Proof.
  pose proof (retry_collapse
    [(exampleTest "id-1" "t1" [], exampleResult passed 500 [] 0)]
    [(exampleTest "id-2" "t2" [], exampleResult passed 150 [] 1);
     (exampleTest "id-3" "t3" [], exampleResult skipped 0 [] 0)]
    (exampleTest "id-2" "t2" [])
    (exampleResult failed 200 [TestError.mk (Some "assert false") None] 0)) as H.
  cbv zeta in H. destruct H as (_ & _ & H).
  - apply not_elem_of_cons. split; [discriminate|apply not_elem_of_nil].
  - exact H.
Defined.

(** ** Counts *)

Lemma loadExistingComments_Ok files outputDir :
  ∃ v, loadExistingComments files outputDir = Ok v.
Proof.
  unfold loadExistingComments. case_match; [|by eexists].
  destruct (_ ≫= _); simpl; by eexists.
Qed.

Lemma count_statuses (tests : list TestEntry.t) :
  (length (filter (λ t, TestEntry.status t = passed) tests)
   + length (filter (λ t, TestEntry.status t = failed
                          ∨ TestEntry.status t = timedOut) tests)
   + length (filter (λ t, TestEntry.status t = skipped) tests)
   + length (filter (λ t, TestEntry.status t = interrupted) tests)
   = length tests)%nat.
Proof.
  induction tests as [|t tests IH]; [done|].
  rewrite !filter_cons. destruct (TestEntry.status t) eqn:E;
    repeat case_decide; simpl; intuition (try discriminate); lia.
Qed.

Lemma length_filter_Permutation {A} (P : A → Prop) `{!∀ x, Decision (P x)} l1 l2 :
  l1 ≡ₚ l2 → length (filter P l1) = length (filter P l2).
Proof. intros Hp. by rewrite Hp. Qed.

(** C2, as amended.  [onEnd] always produces its report data;
    [totalTests] is the number of collected records, [passed] counts the
    records of status [passed], [failed] those of status [failed] or
    [timedOut], [skipped] those of status [skipped]; the three counts and
    the number of records of the remaining status, [interrupted], add up
    to [totalTests]. *)
Theorem count_consistency (tests : list TestEntry.t) (startTime now : Z)
    (timestamp : string) (files : gmap string FsNode) (outputDir : string) :
  ∃ data,
    (onEnd tests startTime now timestamp files outputDir).2 = Ok data
    ∧ ReportData.totalTests data = length tests
    ∧ ReportData.passed data
      = length (filter (λ t, TestEntry.status t = passed) tests)
    ∧ ReportData.failed data
      = length (filter (λ t, TestEntry.status t = failed
                             ∨ TestEntry.status t = timedOut) tests)
    ∧ ReportData.skipped data
      = length (filter (λ t, TestEntry.status t = skipped) tests)
    ∧ (ReportData.passed data + ReportData.failed data + ReportData.skipped data
       + length (filter (λ t, TestEntry.status t = interrupted) tests)
       = ReportData.totalTests data)%nat.
Proof.
  destruct (loadExistingComments_Ok files outputDir) as [v Hv].
  unfold onEnd. simpl. rewrite Hv. simpl. eexists. split; [done|]. simpl.
  pose proof (sort_Permutation
    (λ a b, localeCompare (TestEntry.name a) (TestEntry.name b)) tests) as Hp.
  fold (sortTests tests) in Hp.
  rewrite !(length_filter_Permutation _ _ _ Hp), (Permutation_length Hp).
  split_and!; try done. apply count_statuses.
Qed.

Lemma count_consistency_counterexample :
  let tests :=
    record [(exampleTest "id-1" "t1" [], exampleResult interrupted 100 [] 0)] in
  ∃ data,
    (onEnd tests 0 5 "" ∅ "craft-report").2 = Ok data
    ∧ ReportData.totalTests data = 1%nat
    ∧ (ReportData.passed data + ReportData.failed data + ReportData.skipped data
       ≠ ReportData.totalTests data)%nat.
Proof. eexists. split; [reflexivity|]. split; [reflexivity|]. simpl. lia. Qed.

(** The end-to-end scenario: the retry of [t2] replaces its failure, and
    the report counts three tests, two passed, none failed, one
    skipped, in the order [t1], [t2], [t3]. *)
Theorem end_to_end_scenario :
  ∃ data,
    (onEnd (record scenario) 0 1000 "" ∅ "craft-report").2 = Ok data
    ∧ ReportData.totalTests data = 3%nat
    ∧ ReportData.passed data = 2%nat
    ∧ ReportData.failed data = 0%nat
    ∧ ReportData.skipped data = 1%nat
    ∧ ReportData.tests data
      = [ makeEntry (exampleTest "id-1" "t1" []) (exampleResult passed 500 [] 0);
          makeEntry (exampleTest "id-2" "t2" []) (exampleResult passed 150 [] 1);
          makeEntry (exampleTest "id-3" "t3" []) (exampleResult skipped 0 [] 0) ]
    ∧ ReportData.comments data = emptyObject.
Proof. eexists. split_and!; reflexivity. Qed.

(** ** Order of the report *)



(** ** Annotations *)

Lemma applyAnnotation_single metadata annotation kind get :
  (kind, get) ∈ singleValued →
  get (applyAnnotation metadata annotation)
  = if decide (kindOf annotation = kind) then Some (valueOf annotation)
    else get metadata.
Proof.
  intros Hin. unfold applyAnnotation, kindOf, valueOf.
  generalize (toLowerCase (ann_type annotation)) as k. intros k.
  unfold singleValued in Hin.
  repeat (apply elem_of_cons in Hin as [[= -> ->]|Hin];
    [case_decide as Hk; [rewrite Hk; reflexivity|]; dispatch k ltac:(done); by case_match|]).
  by apply elem_of_nil in Hin.
Qed.

Lemma applyAnnotation_tags metadata annotation :
  tags (applyAnnotation metadata annotation)
  = if decide (kindOf annotation = "tag")
    then Some (default [] (tags metadata) ++ [valueOf annotation])
    else tags metadata.
Proof.
  unfold applyAnnotation, kindOf, valueOf.
  generalize (toLowerCase (ann_type annotation)) as k. intros k.
  case_decide as Hk; [rewrite Hk; reflexivity|]. dispatch k ltac:(done). by case_match.
Qed.

Lemma applyAnnotation_parameters metadata annotation :
  parameters (applyAnnotation metadata annotation)
  = if decide ((kindOf annotation ∉ recognized) ∧ valueOf annotation ≠ "")
    then Some (obj_set (kindOf annotation) (valueOf annotation)
                 (default ∅ (parameters metadata)))
    else parameters metadata.
Proof.
  unfold applyAnnotation, kindOf, valueOf.
  generalize (toLowerCase (ann_type annotation)) as k. intros k.
  generalize (default "" (ann_description annotation)) as v. intros v.
  unfold recognized.
  dispatch k ltac:(rewrite decide_False; [done|]; intros [Hn _]; apply Hn; set_solver).
  destruct v; simpl.
  - rewrite decide_False; [done|]. by intros [_ ?].
  - rewrite decide_True; [done|]. split; [set_solver|done].
Qed.

Lemma applyAnnotations_snoc annotations annotation :
  applyAnnotations (annotations ++ [annotation])
  = applyAnnotation (applyAnnotations annotations) annotation.
Proof. unfold applyAnnotations. by rewrite foldl_app. Qed.

Lemma lastValue_snoc kind annotations annotation :
  lastValue kind (annotations ++ [annotation])
  = if decide (kindOf annotation = kind) then Some (valueOf annotation)
    else lastValue kind annotations.
Proof.
  unfold lastValue. rewrite filter_app, filter_cons, filter_nil.
  case_decide; [|by rewrite app_nil_r].
  rewrite fmap_app. apply last_snoc.
Qed.

Lemma applyAnnotations_single annotations kind get :
  (kind, get) ∈ singleValued →
  get (applyAnnotations annotations) = lastValue kind annotations.
Proof.
  intros Hin. induction annotations as [|a annotations IH] using rev_ind.
  - unfold singleValued in Hin.
    repeat (apply elem_of_cons in Hin as [[= -> ->]|Hin]; [done|]).
    by apply elem_of_nil in Hin.
  - rewrite applyAnnotations_snoc, lastValue_snoc.
    rewrite (applyAnnotation_single _ _ kind get) by done. by rewrite IH.
Qed.

Lemma applyAnnotations_tags annotations :
  tags (applyAnnotations annotations)
  = match filter (λ a, kindOf a = "tag") annotations with
    | [] => None
    | tagged => Some (valueOf <$> tagged)
    end.
Proof.
  induction annotations as [|a annotations IH] using rev_ind; [done|].
  rewrite applyAnnotations_snoc, applyAnnotation_tags, IH.
  rewrite filter_app, filter_cons, filter_nil.
  case_decide; [|by rewrite app_nil_r].
  destruct (filter _ annotations) as [|t l]; [done|].
  simpl. by rewrite fmap_app.
Qed.

Lemma default_empty_lookup (o : option (gmap string string)) key :
  default ∅ o !! key = o ≫= (.!! key).
Proof. destruct o; simpl; [done|]. apply lookup_empty. Qed.

Lemma applyAnnotation_parameter metadata annotation key :
  parameter (applyAnnotation metadata annotation) key
  = if decide (kindOf annotation = key ∧ valueOf annotation ≠ ""
               ∧ (key ∉ recognized) ∧ key ≠ "__proto__")
    then Some (valueOf annotation)
    else parameter metadata key.
Proof.
  unfold parameter. rewrite applyAnnotation_parameters.
  destruct (decide ((kindOf annotation ∉ recognized) ∧ valueOf annotation ≠ ""))
    as [[Hk Hv]|Hn]; simpl.
  - unfold obj_set.
    destruct (String.eqb_spec (kindOf annotation) "__proto__") as [Hp|Hp].
    + rewrite default_empty_lookup. rewrite decide_False; [done|].
      intros (<- & _ & _ & ?). done.
    + rewrite lookup_insert, default_empty_lookup.
      destruct (decide (kindOf annotation = key)) as [<-|Hne].
      * by rewrite decide_True.
      * rewrite decide_False; [done|]. by intros [? _].
  - rewrite decide_False; [done|]. intros (<- & ? & ? & _). tauto.
Qed.

Lemma applyAnnotations_parameter annotations key :
  parameter (applyAnnotations annotations) key
  = if decide (key ∈ recognized ∨ key = "__proto__") then None
    else last (valueOf <$>
                 filter (λ a, kindOf a = key ∧ valueOf a ≠ "") annotations).
Proof.
  induction annotations as [|a annotations IH] using rev_ind.
  { unfold parameter. simpl. by case_decide. }
  rewrite applyAnnotations_snoc, applyAnnotation_parameter, IH.
  rewrite filter_app, filter_cons, filter_nil.
  destruct (decide (key ∈ recognized ∨ key = "__proto__")) as [Hd|Hd].
  - rewrite decide_False; [done|]. intros (_ & _ & ? & ?). tauto.
  - destruct (decide (kindOf a = key ∧ valueOf a ≠ "")) as [[Hk Hv]|Hn].
    + rewrite decide_True by tauto. rewrite fmap_app. symmetry. apply last_snoc.
    + rewrite decide_False by tauto. by rewrite app_nil_r.
Qed.

(** C4, at the failing input: an annotation of the unrecognized kind
    [__proto__] with the non-empty description [x] leaves [parameters] an
    empty object; nothing is stored under its kind name. *)
Theorem annotation_proto_not_stored :
  let m := extractMetadata [mkAnnotation "__proto__" (Some "x")] [] in
  parameters m = Some ∅ ∧ parameter m "__proto__" = None.
Proof. split; reflexivity. Qed.

(** Annotation dispatch, for every list of annotations whose types are
    ASCII text: after the loop each single-valued field holds the value
    of the last annotation of its kind (kinds compared after
    lower-casing) and is unset when there is none; [tags] holds the
    values of the tag annotations in the order met, duplicates kept;
    [parameters] holds, under every other kind except [__proto__], the
    last non-empty value given for it, and nothing under a recognized
    kind or under [__proto__]. *)
Theorem annotation_dispatch (annotations : list Annotation) :
  Forall (λ a, isASCII (ann_type a) = true) annotations →
  let m := applyAnnotations annotations in
  epic m = lastValue "epic" annotations
  ∧ feature m = lastValue "feature" annotations
  ∧ story m = lastValue "story" annotations
  ∧ suite m = lastValue "suite" annotations
  ∧ subSuite m = lastValue "subsuite" annotations
  ∧ parentSuite m = lastValue "parentsuite" annotations
  ∧ severity m = lastValue "severity" annotations
  ∧ owner m = lastValue "owner" annotations
  ∧ description m = lastValue "description" annotations
  ∧ tags m = match filter (λ a, kindOf a = "tag") annotations with
             | [] => None
             | tagged => Some (valueOf <$> tagged)
             end
  ∧ ∀ key, parameter m key
      = if decide (key ∈ recognized ∨ key = "__proto__") then None
        else last (valueOf <$>
               filter (λ a, kindOf a = key ∧ valueOf a ≠ "") annotations).
Proof.
  intros _ m. subst m.
  split_and!;
    try (apply applyAnnotations_single; unfold singleValued; set_solver).
  - apply applyAnnotations_tags.
  - apply applyAnnotations_parameter.
Qed.

Lemma annotation_dispatch_witness :
  let m :=
    applyAnnotations
      [mkAnnotation "Epic" (Some "E1"); mkAnnotation "TAG" (Some "smoke");
       mkAnnotation "Browser" (Some "firefox"); mkAnnotation "epic" None;
       mkAnnotation "tag" (Some "smoke"); mkAnnotation "BROWSER" (Some "webkit");
       mkAnnotation "Issue" (Some "")] in
  epic m = Some "" ∧ tags m = Some ["smoke"; "smoke"]
  ∧ parameter m "browser" = Some "webkit" ∧ parameter m "Browser" = None
  ∧ parameter m "issue" = None.
Proof.
  intros m.
  pose proof (annotation_dispatch
    [mkAnnotation "Epic" (Some "E1"); mkAnnotation "TAG" (Some "smoke");
     mkAnnotation "Browser" (Some "firefox"); mkAnnotation "epic" None;
     mkAnnotation "tag" (Some "smoke"); mkAnnotation "BROWSER" (Some "webkit");
     mkAnnotation "Issue" (Some "")]) as H.
  cbv zeta in H. fold m in H.
  destruct H as (He & _ & _ & _ & _ & _ & _ & _ & _ & Ht & Hp).
  - repeat constructor.
  - rewrite He, Ht, !Hp. split_and!; reflexivity.
Defined.

(** ** Back-fill *)

Lemma backfill_fields metadata titlePath :
  let r := backfill metadata titlePath in
  let n := length titlePath in
  parentSuite r
    = (if negb (truthy_opt (parentSuite metadata)) && (1 <? n)%nat
       then titlePath !! 0%nat else parentSuite metadata)
  ∧ suite r
    = (if negb (truthy_opt (suite metadata)) && (2 <? n)%nat
       then titlePath !! 1%nat else suite metadata)
  ∧ subSuite r
    = (if negb (truthy_opt (subSuite metadata)) && (3 <? n)%nat
       then titlePath !! 2%nat else subSuite metadata)
  ∧ epic r = epic metadata ∧ feature r = feature metadata
  ∧ story r = story metadata ∧ severity r = severity metadata
  ∧ owner r = owner metadata ∧ tags r = tags metadata
  ∧ description r = description metadata
  ∧ parameters r = parameters metadata.
Proof.
  intros r n. subst r n. unfold backfill.
  destruct (1 <? length titlePath)%nat eqn:E1.
  - rewrite andb_true_r.
    destruct (truthy_opt (parentSuite metadata)),
      (truthy_opt (suite metadata)) eqn:Es,
      (truthy_opt (subSuite metadata)) eqn:Ess; simpl; rewrite ?Es, ?Ess; simpl;
      destruct (2 <? length titlePath)%nat, (3 <? length titlePath)%nat; simpl;
      rewrite ?Ess; simpl; rewrite ?andb_false_r; done.
  - assert ((2 <? length titlePath)%nat = false) as ->.
    { apply Nat.ltb_ge. apply Nat.ltb_ge in E1. lia. }
    assert ((3 <? length titlePath)%nat = false) as ->.
    { apply Nat.ltb_ge. apply Nat.ltb_ge in E1. lia. }
    rewrite !andb_false_r. done.
Qed.

Lemma truthy_opt_Some v : v ≠ "" → truthy_opt (Some v) = true.
Proof. by destruct v. Qed.

(** C5, as amended.  The back-fill changes nothing unless the title path
    has more than one segment.  [parentSuite] is the value of the last
    [parentsuite] annotation when that value is not empty, and otherwise
    the first segment of a path of more than one segment; likewise [suite]
    with the second segment of a path of more than two, and [subSuite]
    with the third segment of a path of more than three.  Every other
    field is as the annotations left it.  A non-empty value set by an
    annotation is never overwritten. *)
Theorem backfill_precedence (annotations : list Annotation)
    (titlePath : list string) :
  let m := applyAnnotations annotations in
  let r := extractMetadata annotations titlePath in
  let n := length titlePath in
  let filled (set : option string) (min : nat) (segment : nat) :=
    if negb (truthy_opt set) && (min <? n)%nat then titlePath !! segment
    else set in
  (if (1 <? n)%nat then True else r = m)
  ∧ parentSuite r = filled (lastValue "parentsuite" annotations) 1%nat 0%nat
  ∧ suite r = filled (lastValue "suite" annotations) 2%nat 1%nat
  ∧ subSuite r = filled (lastValue "subsuite" annotations) 3%nat 2%nat
  ∧ (epic r = epic m ∧ feature r = feature m ∧ story r = story m
     ∧ severity r = severity m ∧ owner r = owner m ∧ tags r = tags m
     ∧ description r = description m ∧ parameters r = parameters m)
  ∧ (∀ v, v ≠ "" →
       (lastValue "parentsuite" annotations = Some v → parentSuite r = Some v)
       ∧ (lastValue "suite" annotations = Some v → suite r = Some v)
       ∧ (lastValue "subsuite" annotations = Some v → subSuite r = Some v))
  ∧ (let r1 := extractMetadata [mkAnnotation "epic" (Some "E1")]
                 ["fileA"; "suiteB"; "subC"; "testX"] in
     epic r1 = Some "E1" ∧ parentSuite r1 = Some "fileA"
     ∧ suite r1 = Some "suiteB" ∧ subSuite r1 = Some "subC")
  ∧ parentSuite
      (extractMetadata
         [mkAnnotation "epic" (Some "E1"); mkAnnotation "parentsuite" (Some "Custom")]
         ["fileA"; "suiteB"; "subC"; "testX"]) = Some "Custom".
Proof.
  intros m r n filled.
  destruct (backfill_fields m titlePath) as (Hp & Hs & Hss & Hrest).
  change (backfill m titlePath) with r in Hp, Hs, Hss, Hrest.
  assert (parentSuite m = lastValue "parentsuite" annotations) as Ep
    by (apply applyAnnotations_single; unfold singleValued; set_solver).
  assert (suite m = lastValue "suite" annotations) as Es
    by (apply applyAnnotations_single; unfold singleValued; set_solver).
  assert (subSuite m = lastValue "subsuite" annotations) as Ess
    by (apply applyAnnotations_single; unfold singleValued; set_solver).
  rewrite Ep in Hp. rewrite Es in Hs. rewrite Ess in Hss.
  subst filled. cbv beta.
  split_and!; try done; try tauto.
  - subst r. unfold extractMetadata, backfill. fold m n. by destruct (1 <? n)%nat.
  - intros v Hv. pose proof (truthy_opt_Some v Hv) as Ht.
    split_and!; intros Hl; rewrite Hl in *.
    + rewrite Hp. by rewrite Ht.
    + rewrite Hs. by rewrite Ht.
    + rewrite Hss. by rewrite Ht.
Qed.

Lemma backfill_precedence_counterexample :
  let annotations := [mkAnnotation "suite" (Some "")] in
  let titlePath := ["fileA"; "suiteB"; "testX"] in
  suite (applyAnnotations annotations) = Some ""
  ∧ suite (extractMetadata annotations titlePath) = Some "suiteB"
  ∧ suite (extractMetadata annotations titlePath)
    ≠ suite (applyAnnotations annotations).
Proof. split_and!; [reflexivity..|discriminate]. Qed.

Lemma backfill_precedence_witness :
  parentSuite
    (extractMetadata [mkAnnotation "ParentSuite" (Some "Custom")]
       ["fileA"; "suiteB"]) = Some "Custom".
Proof.
  pose proof (backfill_precedence [mkAnnotation "ParentSuite" (Some "Custom")]
                ["fileA"; "suiteB"]) as H.
  cbv zeta in H. destruct H as (_ & _ & _ & _ & _ & H & _).
  apply (H "Custom"); [discriminate|reflexivity].
Defined.

(** C10.  An annotation of a single-valued kind whose description is
    absent or empty sets its field to the empty string; the back-fill
    then treats that field as unset and replaces it with the segment of
    the title path when the path is long enough. *)
Theorem empty_description_is_unset (pre : list Annotation)
    (annotation : Annotation) (titlePath : list string)
    (kind : string) (get : TestMetadata → option string) :
  (kind, get) ∈ singleValued →
  toLowerCase (ann_type annotation) = kind →
  truthy_opt (ann_description annotation) = false →
  let m := applyAnnotations (pre ++ [annotation]) in
  let r := extractMetadata (pre ++ [annotation]) titlePath in
  let n := length titlePath in
  get m = Some ""
  ∧ (kind = "parentsuite" →
       parentSuite r = if (1 <? n)%nat then titlePath !! 0%nat else Some "")
  ∧ (kind = "suite" →
       suite r = if (2 <? n)%nat then titlePath !! 1%nat else Some "")
  ∧ (kind = "subsuite" →
       subSuite r = if (3 <? n)%nat then titlePath !! 2%nat else Some "")
  ∧ (kind ∉ ["parentsuite"; "suite"; "subsuite"] → get r = Some "").
Proof.
  intros Hin Hk Hd m r n.
  assert (valueOf annotation = "") as Hv.
  { unfold valueOf. destruct (ann_description annotation) as [[|]|]; done. }
  assert (get m = Some "") as Hm.
  { subst m. rewrite applyAnnotations_snoc.
    rewrite (applyAnnotation_single _ _ kind get) by done.
    by rewrite decide_True, Hv. }
  destruct (backfill_fields m titlePath)
    as (Hp & Hs & Hss & H1 & H2 & H3 & H4 & H5 & _ & H6 & _).
  change (backfill m titlePath) with r in *.
  split_and!; [done|..].
  - intros ->. assert (get = parentSuite) as ->.
    { unfold singleValued in Hin. set_solver. }
    by rewrite Hp, Hm.
  - intros ->. assert (get = suite) as ->.
    { unfold singleValued in Hin. set_solver. }
    by rewrite Hs, Hm.
  - intros ->. assert (get = subSuite) as ->.
    { unfold singleValued in Hin. set_solver. }
    by rewrite Hss, Hm.
  - intros Hnot. rewrite <- Hm. unfold singleValued in Hin.
    repeat (apply elem_of_cons in Hin as [[= -> ->]|Hin]; [done || set_solver|]).
    by apply elem_of_nil in Hin.
Qed.

Lemma empty_description_is_unset_witness :
  suite (applyAnnotations [mkAnnotation "Suite" None]) = Some ""
  ∧ suite (extractMetadata [mkAnnotation "Suite" None]
             ["fileA"; "suiteB"; "testX"]) = Some "suiteB".
Proof.
  pose proof (empty_description_is_unset [] (mkAnnotation "Suite" None)
                ["fileA"; "suiteB"; "testX"] "suite" suite) as H.
  cbv zeta in H. destruct H as (H1 & _ & H2 & _).
  - unfold singleValued. set_solver.
  - reflexivity.
  - reflexivity.
  - split; [exact H1|]. by apply H2.
Defined.

(** ** Comments *)




(** ** Error traces *)

Lemma onTestEnd_elem_of tests test result e :
  e ∈ onTestEnd tests test result → e ∈ tests ∨ e = makeEntry test result.
Proof.
  unfold onTestEnd. destruct (findIndex _ tests) as [i|].
  - intros [j Hj]%list_elem_of_lookup.
    apply list_lookup_insert_Some in Hj as [(-> & -> & _)|[_ Hj]]; [by right|].
    left. by eapply list_elem_of_lookup_2.
  - intros [H| ->%list_elem_of_singleton]%elem_of_app; auto.
Qed.

Lemma run_elem_of calls tests e :
  e ∈ run tests calls →
  e ∈ tests ∨ ∃ test result, (test, result) ∈ calls ∧ e = makeEntry test result.
Proof.
  revert tests. induction calls as [|[test result] calls IH]; intros tests; simpl; [auto|].
  intros [[H| ->]%onTestEnd_elem_of|(t & r & Hin & ->)]%IH; [by left|..];
    right; eexists _, _; (split; [|done]); by constructor.
Qed.

Lemma formatErrors_is_Some errors : is_Some (formatErrors errors) ↔ errors ≠ [].
Proof.
  unfold formatErrors. destruct errors; simpl; split; intros H;
    try done; try (by destruct H); by eexists.
Qed.

(** C7, as amended.  Every entry of the collection is the entry of one
    of the calls, and its error trace is present exactly when the result
    of that call carries at least one error, whatever its status. *)
Theorem errorTrace_presence (calls : list (TestCase.t * TestResult.t))
    (e : TestEntry.t) :
  e ∈ record calls →
  ∃ test result,
    (test, result) ∈ calls ∧ e = makeEntry test result
    ∧ (is_Some (TestEntry.errorTrace e) ↔ TestResult.errors result ≠ []).
Proof.
  intros [H|(test & result & Hin & ->)]%run_elem_of; [by apply elem_of_nil in H|].
  exists test, result. split_and!; [done..|]. apply formatErrors_is_Some.
Qed.

Lemma errorTrace_presence_counterexample :
  let result :=
    exampleResult passed 100 [TestError.mk (Some "soft failure") None] 0 in
  let tests := record [(exampleTest "id-1" "t1" [], result)] in
  ∃ e, tests = [e] ∧ TestEntry.status e = passed
       ∧ TestEntry.errorTrace e = Some "soft failure".
Proof. eexists. split_and!; reflexivity. Qed.

Lemma errorTrace_presence_witness :
  ∃ test result,
    (test, result) ∈ scenario
    ∧ makeEntry (exampleTest "id-3" "t3" []) (exampleResult skipped 0 [] 0)
      = makeEntry test result
    ∧ (is_Some (TestEntry.errorTrace
         (makeEntry (exampleTest "id-3" "t3" []) (exampleResult skipped 0 [] 0)))
       ↔ TestResult.errors result ≠ []).
Proof.
  apply (errorTrace_presence scenario).
  vm_compute. repeat constructor.
Defined.

(** ** Template *)

Lemma getSubstitution_plain (matched preceding following replacement : string) :
  no_dollar replacement = true →
  getSubstitution matched preceding following replacement = replacement.
Proof.
  induction replacement as [|c r IH]; simpl; [done|].
  intros [Hc Hr]%andb_true_iff. apply negb_true_iff in Hc. rewrite Hc.
  by rewrite IH.
Qed.

Lemma replace_first (searchValue replaceValue s : string) (i : nat) :
  indexOf searchValue s = Some i →
  replace searchValue replaceValue s
  = stake i s
    +:+ getSubstitution searchValue (stake i s)
          (sdrop (i + String.length searchValue) s) replaceValue
    +:+ sdrop (i + String.length searchValue) s.
Proof. intros H. unfold replace. by rewrite H. Qed.

Lemma replace_first_split (searchValue replaceValue pre post : string) :
  indexOf searchValue (pre +:+ searchValue +:+ post) = Some (String.length pre) →
  replace searchValue replaceValue (pre +:+ searchValue +:+ post)
  = pre +:+ getSubstitution searchValue pre post replaceValue +:+ post.
Proof.
  intros H. rewrite (replace_first _ _ _ _ H).
  rewrite stake_append, sdrop_append.
  replace (sdrop (String.length searchValue) (searchValue +:+ post)) with post; [done|].
  by rewrite <- (Nat.add_0_r (String.length searchValue)), sdrop_append.
Qed.

Lemma no_dollar_append (a b : string) :
  no_dollar (a +:+ b) = no_dollar a && no_dollar b.
Proof. induction a as [|x a IH]; simpl_append; [done|]. by rewrite IH, andb_assoc. Qed.

Lemma base64_digit_plain (n : N) : negb (Ascii.eqb (base64_digit n) "$") = true.
Proof.
  apply negb_true_iff, Ascii.eqb_neq. unfold base64_digit.
  destruct (N.ltb_spec n 26); [|destruct (N.ltb_spec n 52);
    [|destruct (N.ltb_spec n 62); [|by destruct (n =? 62)%N]]];
    intros Hc%(f_equal N_of_ascii);
    rewrite N_ascii_embedding in Hc by lia; simpl in Hc; lia.
Qed.

Lemma base64_plain (bytes : string) : no_dollar (base64 bytes) = true.
Proof.
  cut (no_dollar (base64 bytes) = true
       ∧ (∀ a, no_dollar (base64 (String a bytes)) = true)
       ∧ (∀ a b, no_dollar (base64 (String a (String b bytes))) = true)).
  { tauto. }
  induction bytes as [|c s (IH1 & IH2 & IH3)].
  - split_and!; intros; simpl; by rewrite ?base64_digit_plain.
  - split_and!; [apply IH2|intros a; apply IH3|].
    intros a b. cbn [base64 no_dollar]. by rewrite !base64_digit_plain, IH1.
Qed.

Lemma mimeType_plain (ext : string) : no_dollar (mimeType ext) = true.
Proof. unfold mimeType. by repeat case_match. Qed.

Lemma logoImg_plain (logoPath content : string) :
  no_dollar (logoImg logoPath content) = true.
Proof.
  unfold logoImg. rewrite !no_dollar_append, mimeType_plain, base64_plain. done.
Qed.

(** C8, at the failing input.  A stylesheet that contains [$&] and a
    data block that contains [$$] are not injected as supplied: [replace]
    expands the first to the marker text and the second to one dollar
    sign. *)
Theorem template_dollar_patterns_expanded :
  let template :=
    "<style>/* INJECT_STYLES */</style><script>const D = /* INJECT_DATA */;</script>" in
  let css := "a::after{content:'$&'}" in
  let data := "{" +:+ DQ +:+ "name" +:+ DQ +:+ ":" +:+ DQ +:+ "costs $$5" +:+ DQ +:+ "}" in
  let html := injectTemplate template css "" data "T" "" in
  html
  = "<style>a::after{content:'/* INJECT_STYLES */'}</style><script>const D = {"
    +:+ DQ +:+ "name" +:+ DQ +:+ ":" +:+ DQ +:+ "costs $5" +:+ DQ +:+ "};</script>"
  ∧ html
    ≠ "<style>" +:+ css +:+ "</style><script>const D = " +:+ data +:+ ";</script>".
Proof. split; [reflexivity|discriminate]. Qed.

(** [replace] with a string pattern touches the first occurrence only,
    and inserts a replacement without dollar signs as it is; without an
    occurrence the text is unchanged. *)
Theorem replace_first_occurrence_only (searchValue replaceValue s : string) :
  match indexOf searchValue s with
  | Some i =>
      s = stake i s +:+ searchValue +:+ sdrop (i + String.length searchValue) s
      ∧ (∀ j, (j < i)%nat → String.prefix searchValue (sdrop j s) = false)
      ∧ (no_dollar replaceValue = true →
           replace searchValue replaceValue s
           = stake i s +:+ replaceValue
             +:+ sdrop (i + String.length searchValue) s)
  | None =>
      (∀ j, String.prefix searchValue (sdrop j s) = false)
      ∧ replace searchValue replaceValue s = s
  end.
Proof.
  destruct (indexOf searchValue s) as [i|] eqn:E.
  - destruct (indexOf_Some _ _ _ E) as [H1 H2]. split_and!; [done..|].
    intros Hplain. rewrite (replace_first _ _ _ _ E).
    by rewrite getSubstitution_plain.
  - split; [by apply indexOf_None|]. unfold replace. by rewrite E.
Qed.

Lemma replace_first_occurrence_only_witness :
  replace STYLES_MARKER "body{}" "<style>/* INJECT_STYLES */</style>/* INJECT_STYLES */"
  = "<style>body{}</style>/* INJECT_STYLES */".
Proof.
  pose proof (replace_first_occurrence_only STYLES_MARKER "body{}"
    "<style>/* INJECT_STYLES */</style>/* INJECT_STYLES */") as H.
  change (indexOf _ _) with (Some 7%nat) in H. destruct H as (_ & _ & H).
  rewrite H; reflexivity.
Defined.

Lemma replaceGlobal_from_skip (pattern replaceValue a preceding s : string) :
  replaceGlobal_from pattern replaceValue (String.length a) preceding (a +:+ s)
  = replaceGlobal_from pattern replaceValue 0 (preceding +:+ a) s.
Proof.
  revert preceding. induction a as [|c a IH]; intros preceding.
  - by rewrite append_nil_l, append_nil_r.
  - rewrite append_String. simpl. rewrite IH. by rewrite append_assoc.
Qed.

Lemma replaceGlobal_from_plain (pattern replaceValue : string) :
  no_dollar replaceValue = true →
  ∀ s skip preceding preceding',
    replaceGlobal_from pattern replaceValue skip preceding s
    = replaceGlobal_from pattern replaceValue skip preceding' s.
Proof.
  intros Hplain. induction s as [|c s IH]; intros skip preceding preceding'; [done|].
  cbn [replaceGlobal_from]. destruct skip as [|k]; [|apply IH].
  destruct (String.prefix pattern (String c s)).
  - rewrite !getSubstitution_plain by done. f_equal. apply IH.
  - f_equal. apply IH.
Qed.

(** [replace] with the global pattern replaces the first occurrence and
    goes on in the text after it, so every occurrence met from left to
    right is replaced; a replacement without dollar signs is inserted as
    it is; a text without occurrence is unchanged. *)
Theorem replaceGlobal_every_occurrence (pattern replaceValue pre post : string) :
  pattern ≠ "" →
  no_dollar replaceValue = true →
  indexOf pattern (pre +:+ pattern +:+ post) = Some (String.length pre) →
  replaceGlobal pattern replaceValue (pre +:+ pattern +:+ post)
  = pre +:+ replaceValue +:+ replaceGlobal pattern replaceValue post.
Proof.
  intros Hpat Hplain. unfold replaceGlobal. generalize "" at 1 as preceding.
  induction pre as [|c pre IH]; intros preceding Hfirst.
  - rewrite !append_nil_l. destruct pattern as [|c p]; [done|].
    rewrite append_String. cbn [replaceGlobal_from].
    rewrite <- append_String, prefix_append, getSubstitution_plain by done.
    f_equal. simpl. rewrite Nat.sub_0_r, replaceGlobal_from_skip.
    by apply replaceGlobal_from_plain.
  - rewrite append_String in *. rewrite indexOf_unfold in Hfirst.
    cbn [replaceGlobal_from].
    destruct (String.prefix pattern _) eqn:E; [done|].
    rewrite (append_String c pre). f_equal. apply IH.
    destruct (indexOf pattern _) as [k|]; simplify_eq/=. done.
Qed.

Lemma replaceGlobal_every_occurrence_witness :
  replaceGlobal TITLE_PLACEHOLDER "Report"
    ("<title>{{TITLE}}</title><h1>{{TITLE}}</h1>")
  = "<title>Report</title><h1>"
    +:+ replaceGlobal TITLE_PLACEHOLDER "Report" "{{TITLE}}</h1>".
Proof.
  apply (replaceGlobal_every_occurrence TITLE_PLACEHOLDER "Report"
           "<title>" "</title><h1>{{TITLE}}</h1>"); [discriminate|reflexivity..].
Defined.

Lemma replace_plain (searchValue replaceValue s : string) :
  no_dollar replaceValue = true →
  match indexOf searchValue s with
  | Some i =>
      s = stake i s +:+ searchValue +:+ sdrop (i + String.length searchValue) s
      ∧ replace searchValue replaceValue s
        = stake i s +:+ replaceValue +:+ sdrop (i + String.length searchValue) s
  | None => replace searchValue replaceValue s = s
  end.
Proof.
  intros Hplain. destruct (indexOf searchValue s) as [i|] eqn:E.
  - split; [by apply indexOf_Some|].
    rewrite (replace_first _ _ _ _ E). by rewrite getSubstitution_plain.
  - unfold replace. by rewrite E.
Qed.

(** C9.  Take the template, stylesheet and script that
    [generateHTMLReport] reads, and call document the text in which
    styles, script, data and title are injected.  [generateHTMLReport]
    then renders the document with its first logo marker replaced: by
    the empty string when no logo is configured or nothing is found at
    the logo's path, and otherwise by an [img] element whose source is
    the base64 encoding of the logo file, with the MIME type of the
    lower-cased extension of its path.  A document without the marker is
    rendered as it is. *)
Theorem logo_embedding (files : gmap string FsNode)
    (dirname cwd outputDir : string) (options : Options.t)
    (data template css js : string) :
  readTemplate files dirname = Ok (template, css, js) →
  let logo := Options.logo options in
  let logoPath := path_resolve cwd logo in
  let outputPath := path_join outputDir (Options.outputFile options) in
  let document :=
    replaceGlobal TITLE_PLACEHOLDER (Options.title options)
      (replace DATA_MARKER data
         (replace SCRIPT_MARKER js (replace STYLES_MARKER css template))) in
  let embedded content :=
    "<img src=" +:+ DQ +:+ "data:"
      +:+ mimeType (toLowerCase (extname logoPath))
      +:+ ";base64," +:+ base64 content
      +:+ DQ +:+ " alt=" +:+ DQ +:+ "Logo" +:+ DQ +:+ ">" in
  let rendered text :=
    generateHTMLReport files dirname cwd outputDir options data
    = Ok (outputPath,
          match indexOf LOGO_MARKER document with
          | Some i =>
              stake i document +:+ text
                +:+ sdrop (i + String.length LOGO_MARKER) document
          | None => document
          end) in
  (∀ i, indexOf LOGO_MARKER document = Some i →
     document = stake i document +:+ LOGO_MARKER
                  +:+ sdrop (i + String.length LOGO_MARKER) document)
  ∧ (logo = "" → rendered "")
  ∧ (files !! logoPath = None → rendered "")
  ∧ (∀ content, logo ≠ "" → files !! logoPath = Some (File content) →
       rendered (embedded content))
  ∧ (mimeType ".png" = "image/png" ∧ mimeType ".jpg" = "image/jpeg"
     ∧ mimeType ".jpeg" = "image/jpeg" ∧ mimeType ".svg" = "image/svg+xml"
     ∧ ∀ ext, ext ∉ [".png"; ".jpg"; ".jpeg"; ".svg"] →
         mimeType ext = "image/png")
  ∧ (∀ options, opt_logo options = None →
       Options.logo (resolveOptions options) = "").
Proof.
  intros Htemplate logo logoPath outputPath document embedded rendered.
  assert (∀ text, no_dollar text = true →
            logoHtml files cwd logo = Ok text → rendered text) as Hrendered.
  { intros text Hplain Hlogo. subst rendered. cbv beta.
    unfold generateHTMLReport. rewrite Htemplate. simpl.
    fold logo. rewrite Hlogo. simpl. unfold injectTemplate. fold document.
    fold outputPath. do 2 f_equal.
    pose proof (replace_plain LOGO_MARKER text document Hplain) as Hr.
    destruct (indexOf LOGO_MARKER document); [by destruct Hr|done]. }
  split_and!.
  - intros i Hi. by apply indexOf_Some.
  - intros Hnone. apply Hrendered; [done|]. unfold logoHtml. by rewrite Hnone.
  - intros Hnone. apply Hrendered; [done|]. unfold logoHtml, existsSync.
    fold logoPath. rewrite Hnone. by destruct (truthy logo).
  - intros content Hlogo Hfile. apply Hrendered.
    + apply (logoImg_plain logoPath content).
    + unfold logoHtml, existsSync, readFileSync. fold logoPath. rewrite Hfile.
      destruct logo; [done|reflexivity].
  - done.
  - done.
  - done.
  - done.
  - intros ext Hext. unfold mimeType.
    repeat match goal with
      | |- context [String.eqb ext ?y] =>
          destruct (String.eqb_spec ext y) as [->|?]; [set_solver|]
      end.
    done.
  - intros opts Hnone. unfold resolveOptions, or_else. by rewrite Hnone.
Qed.

Lemma logo_embedding_witness :
  let files : gmap string FsNode :=
    {[ "/pkg/dist/html/template.html" :=
         File "<header><!-- INJECT_LOGO --></header><h1>{{TITLE}}</h1>";
       "/work/assets/logo.JPG" := File "Man" ]} in
  generateHTMLReport files "/pkg/dist/reporter" "/work" "/work/craft-report"
    (resolveOptions
       (mkReporterOptions None None None (Some "Run") (Some "./assets/logo.JPG")))
    "{}"
  = Ok ("/work/craft-report/report.html",
        "<header><img src=" +:+ DQ +:+ "data:image/jpeg;base64,TWFu"
          +:+ DQ +:+ " alt=" +:+ DQ +:+ "Logo" +:+ DQ +:+ "></header><h1>Run</h1>").
Proof.
  intros files.
  pose proof (logo_embedding files "/pkg/dist/reporter" "/work"
    "/work/craft-report"
    (resolveOptions
       (mkReporterOptions None None None (Some "Run") (Some "./assets/logo.JPG")))
    "{}" "<header><!-- INJECT_LOGO --></header><h1>{{TITLE}}</h1>" "" "") as H.
  cbv zeta in H. destruct H as (_ & _ & _ & H & _); [reflexivity|].
  specialize (H "Man"). rewrite H; [reflexivity|discriminate|reflexivity].
Defined.

(** Without template files, stylesheet, script and logo, the report is
    the built-in template with the data and the title injected, written
    to [outputFile] in the output directory. *)
Theorem generateHTMLReport_default_template (files : gmap string FsNode)
    (dirname cwd outputDir : string) (options : Options.t) (data : string) :
  (∀ name, name ∈ ["../html/template.html"; "../../src/html/template.html";
                   "../../src/html/styles.css"; "../../src/html/report.js"] →
     files !! path_join dirname name = None) →
  Options.logo options = "" →
  generateHTMLReport files dirname cwd outputDir options data
  = Ok (path_join outputDir (Options.outputFile options),
        injectTemplate getDefaultTemplate "" "" data (Options.title options) "").
Proof.
  intros Hnone Hlogo. unfold generateHTMLReport, readTemplate, readOr, existsSync.
  rewrite !Hnone by set_solver. rewrite Hlogo. reflexivity.
Qed.

Lemma generateHTMLReport_default_template_witness :
  generateHTMLReport ∅ "/pkg/dist/reporter" "/work" "/work/craft-report"
    (resolveOptions (mkReporterOptions None None None None None)) "{}"
  = Ok ("/work/craft-report/report.html",
        injectTemplate getDefaultTemplate "" "" "{}" "Craft Test Report" "").
Proof.
  apply (generateHTMLReport_default_template ∅ "/pkg/dist/reporter" "/work"
           "/work/craft-report"
           (resolveOptions (mkReporterOptions None None None None None)) "{}").
  - intros name _. apply lookup_empty.
  - reflexivity.
Defined.

(** * Further properties *)

(** ** The collection as a whole *)

Lemma distinctIds_snoc calls c :
  distinctIds (calls ++ [c])
  = if decide (callId c ∈ distinctIds calls) then distinctIds calls
    else distinctIds calls ++ [callId c].
Proof.
  unfold distinctIds. rewrite fmap_app.
  change (callId <$> [c]) with [callId c]. rewrite reverse_snoc. simpl.
  destruct (decide_rel elem_of _ _) as [Hin|Hin].
  - rewrite decide_True; [done|]. by rewrite elem_of_reverse, elem_of_remove_dups.
  - rewrite decide_False; [by rewrite reverse_cons|].
    intros H. rewrite elem_of_reverse, elem_of_remove_dups in H. done.
Qed.

Lemma elem_of_distinctIds calls id :
  id ∈ distinctIds calls ↔ id ∈ callId <$> calls.
Proof.
  unfold distinctIds.
  by rewrite elem_of_reverse, elem_of_remove_dups, elem_of_reverse.
Qed.

Lemma NoDup_distinctIds calls : NoDup (distinctIds calls).
Proof. unfold distinctIds. rewrite reverse_Permutation. apply NoDup_remove_dups. Qed.

Lemma lastOutcome_snoc id calls c :
  lastOutcome id (calls ++ [c])
  = if decide (callId c = id) then Some c else lastOutcome id calls.
Proof.
  unfold lastOutcome. rewrite filter_app, filter_cons, filter_nil.
  case_decide; [apply last_snoc|by rewrite app_nil_r].
Qed.

Lemma record_snoc calls c :
  record (calls ++ [c]) = onTestEnd (record calls) c.1 c.2.
Proof. unfold record. by rewrite run_app. Qed.

Lemma record_ids calls :
  TestEntry.testId <$> record calls = distinctIds calls.
Proof.
  induction calls as [|c calls IH] using rev_ind; [done|].
  rewrite record_snoc, onTestEnd_ids, distinctIds_snoc, IH. done.
Qed.

Lemma record_entries calls :
  Forall2 (entryOfLast calls) (record calls) (distinctIds calls).
Proof.
  induction calls as [|c calls IH] using rev_ind; [constructor|].
  pose proof (record_ids calls) as Hids.
  pose proof (NoDup_distinctIds calls) as Hnd.
  assert (∀ e id, entryOfLast calls e id → id ≠ callId c →
            entryOfLast (calls ++ [c]) e id) as Hkeep.
  { intros e id [H1 H2] Hne. split; [done|].
    rewrite lastOutcome_snoc, decide_False; done. }
  rewrite record_snoc, distinctIds_snoc. unfold onTestEnd.
  destruct (findIndex (TestCase.id c.1) (record calls)) as [i|] eqn:E.
  - apply findIndex_Some in E as (e & Hi & He & _).
    assert (distinctIds calls !! i = Some (callId c)) as Hdi.
    { rewrite <- Hids, list_lookup_fmap, Hi. simpl. by rewrite He. }
    rewrite decide_True by (by eapply list_elem_of_lookup_2).
    apply Forall2_same_length_lookup. split.
    { rewrite length_insert. by eapply Forall2_length. }
    intros j x y Hx Hy.
    destruct (decide (i = j)) as [<-|Hij].
    + rewrite list_lookup_insert_eq in Hx by (by eapply lookup_lt_Some).
      simplify_eq. split; [done|]. rewrite lastOutcome_snoc, decide_True; done.
    + rewrite list_lookup_insert_ne in Hx by done.
      apply Hkeep; [by eapply Forall2_lookup_lr|].
      intros ->. apply Hij. by eapply NoDup_lookup.
  - apply findIndex_None in E. rewrite Hids in E.
    rewrite decide_False by done.
    apply Forall2_app.
    + apply Forall2_same_length_lookup. split; [by eapply Forall2_length|].
      intros j x y Hx Hy. apply Hkeep; [by eapply Forall2_lookup_lr|].
      intros ->. apply E. by eapply list_elem_of_lookup_2.
    + constructor; [|constructor]. split; [done|].
      rewrite lastOutcome_snoc, decide_True; done.
Qed.

(** The collection after any sequence of calls, in full: its entries
    stand in the order in which their identities were first reported,
    one entry per identity, each the entry of the last call made for its
    identity. *)
Theorem record_characterization (calls : list (TestCase.t * TestResult.t)) :
  TestEntry.testId <$> record calls = distinctIds calls
  ∧ Forall2 (entryOfLast calls) (record calls) (distinctIds calls)
  ∧ length (record calls) = length (remove_dups (callId <$> calls)).
Proof.
  split_and!; [apply record_ids|apply record_entries|].
  rewrite <- (length_fmap TestEntry.testId), record_ids. unfold distinctIds.
  rewrite length_reverse. apply Permutation_length, NoDup_Permutation.
  - apply NoDup_remove_dups.
  - apply NoDup_remove_dups.
  - intros x. by rewrite !elem_of_remove_dups, elem_of_reverse.
Qed.

(** The report of a whole run: [onEnd] after any sequence of [onTestEnd]
    calls lists every reported test once, with the entry of its last
    call, and [totalTests] is the number of distinct identities. *)
Theorem report_of_run (calls : list (TestCase.t * TestResult.t))
    (startTime now : Z) (timestamp : string) (files : gmap string FsNode)
    (outputDir : string) :
  ∃ data,
    (onEnd (record calls) startTime now timestamp files outputDir).2 = Ok data
    ∧ NoDup (TestEntry.testId <$> ReportData.tests data)
    ∧ (∀ id, id ∈ TestEntry.testId <$> ReportData.tests data
             ↔ id ∈ callId <$> calls)
    ∧ Forall (λ e, entryOfLast calls e (TestEntry.testId e)) (ReportData.tests data)
    ∧ ReportData.totalTests data = length (remove_dups (callId <$> calls)).
Proof.
  destruct (loadExistingComments_Ok files outputDir) as [v Hv].
  unfold onEnd. simpl. rewrite Hv. simpl. eexists. split; [done|]. simpl.
  pose proof (sort_Permutation
    (λ a b, localeCompare (TestEntry.name a) (TestEntry.name b)) (record calls)) as Hp.
  fold (sortTests (record calls)) in Hp.
  split_and!.
  - rewrite Hp, record_ids. apply NoDup_distinctIds.
  - intros id. rewrite Hp, record_ids. apply elem_of_distinctIds.
  - rewrite Hp. apply Forall_forall. intros e [i Hi]%list_elem_of_lookup.
    pose proof (record_entries calls) as HF.
    destruct (Forall2_lookup_l _ _ _ _ _ HF Hi) as (id & _ & [Hid Hlast]).
    split; [done|]. by rewrite Hid.
  - rewrite (Permutation_length Hp).
    rewrite <- (length_fmap TestEntry.testId), record_ids. unfold distinctIds.
    rewrite length_reverse. apply Permutation_length, NoDup_Permutation.
    + apply NoDup_remove_dups.
    + apply NoDup_remove_dups.
    + intros x. by rewrite !elem_of_remove_dups, elem_of_reverse.
Qed.

(** ** One call *)

Lemma findIndex_insert id tests i e :
  findIndex id tests = Some i → TestEntry.testId e = id →
  findIndex id (<[i := e]> tests) = Some i.
Proof.
  intros (e0 & Hi & He0 & Hbefore)%findIndex_Some He.
  apply findIndex_Some. exists e. split_and!; [|done|].
  - apply list_lookup_insert_eq. by eapply lookup_lt_Some.
  - intros j y Hj Hlt. rewrite list_lookup_insert_ne in Hj by lia. eauto.
Qed.

Lemma findIndex_snoc id tests e :
  findIndex id tests = None → TestEntry.testId e = id →
  findIndex id (tests ++ [e]) = Some (length tests).
Proof.
  intros Hnone%findIndex_None He. apply findIndex_Some. exists e. split_and!; [|done|].
  - by rewrite lookup_app_r, Nat.sub_diag.
  - intros j y Hj Hlt Hy. rewrite lookup_app_l in Hj by done.
    apply Hnone. rewrite <- Hy. apply list_elem_of_fmap. exists y.
    split; [done|]. by eapply list_elem_of_lookup_2.
Qed.

(** A later call for the same test overwrites an earlier one completely:
    two calls in a row leave what the second alone leaves. *)
Theorem onTestEnd_last_wins (tests : list TestEntry.t)
    (test1 test2 : TestCase.t) (result1 result2 : TestResult.t) :
  TestCase.id test1 = TestCase.id test2 →
  onTestEnd (onTestEnd tests test1 result1) test2 result2
  = onTestEnd tests test2 result2.
Proof.
  intros Hid. unfold onTestEnd at 2 3. rewrite Hid.
  destruct (findIndex (TestCase.id test2) tests) as [i|] eqn:E.
  - unfold onTestEnd.
    rewrite (findIndex_insert _ _ _ (makeEntry test1 result1) E) by done.
    apply list_insert_insert_eq.
  - unfold onTestEnd.
    rewrite (findIndex_snoc _ _ (makeEntry test1 result1) E) by done.
    rewrite insert_app_r_alt, Nat.sub_diag by done. done.
Qed.

Lemma onTestEnd_last_wins_witness :
  onTestEnd
    (onTestEnd [] (exampleTest "id-2" "t2" [])
       (exampleResult failed 200 [TestError.mk (Some "assert false") None] 0))
    (exampleTest "id-2" "t2" []) (exampleResult passed 150 [] 1)
  = onTestEnd [] (exampleTest "id-2" "t2" []) (exampleResult passed 150 [] 1).
Proof. apply (onTestEnd_last_wins []). reflexivity. Defined.

(** A call never removes or moves an entry of another test: every such
    entry keeps its index; the array grows by one entry when the
    identity is new and keeps its length otherwise; the entry of the call
    is in the array afterwards. *)
Theorem onTestEnd_frame (tests : list TestEntry.t) (test : TestCase.t)
    (result : TestResult.t) :
  let tests' := onTestEnd tests test result in
  length tests'
  = (if decide (TestCase.id test ∈ TestEntry.testId <$> tests)
     then length tests else S (length tests))
  ∧ (∀ i e, tests !! i = Some e → TestEntry.testId e ≠ TestCase.id test →
       tests' !! i = Some e)
  ∧ makeEntry test result ∈ tests'.
Proof.
  intros tests'. subst tests'. unfold onTestEnd.
  destruct (findIndex (TestCase.id test) tests) as [k|] eqn:E.
  - pose proof E as (e0 & Hk & He0 & _)%findIndex_Some. split_and!.
    + rewrite length_insert, decide_True; [done|].
      apply list_elem_of_fmap. exists e0. split; [done|]. by eapply list_elem_of_lookup_2.
    + intros i e Hi Hne. rewrite list_lookup_insert_ne; [done|].
      intros ->. congruence.
    + eapply list_elem_of_lookup_2. apply list_lookup_insert_eq. by eapply lookup_lt_Some.
  - pose proof E as Hnone%findIndex_None. split_and!.
    + rewrite length_app, decide_False by done. simpl. lia.
    + intros i e Hi _. by apply lookup_app_l_Some.
    + apply elem_of_app. right. constructor.
Qed.

Lemma onTestEnd_frame_witness :
  onTestEnd (record [(exampleTest "id-1" "t1" [], exampleResult passed 500 [] 0)])
    (exampleTest "id-2" "t2" []) (exampleResult passed 150 [] 1) !! 0%nat
  = Some (makeEntry (exampleTest "id-1" "t1" []) (exampleResult passed 500 [] 0)).
Proof.
  pose proof (onTestEnd_frame
    (record [(exampleTest "id-1" "t1" [], exampleResult passed 500 [] 0)])
    (exampleTest "id-2" "t2" []) (exampleResult passed 150 [] 1)) as H.
  cbv zeta in H. destruct H as (_ & H & _).
  apply H; [reflexivity|discriminate].
Defined.

(** ** A second run of onEnd *)

Section SortedFacts.
Context {A : Type} (compareFn : A → A → Z).

Lemma sort_insert_least x l :
  Forall (λ y, compareFn x y ≤ 0) l → sort_insert compareFn x l = x :: l.
Proof.
  destruct 1 as [|y l Hy Hl]; simpl; [done|].
  destruct (Z.leb_spec (compareFn x y) 0); [done|lia].
Qed.

Lemma sort_of_sorted l :
  StronglySorted (λ a b, compareFn a b ≤ 0) l → sort compareFn l = l.
Proof.
  induction 1 as [|x l Hl IH Hx]; [done|].
  simpl. fold (sort compareFn l). rewrite IH. by apply sort_insert_least.
Qed.
End SortedFacts.

Lemma sortTests_idempotent tests : sortTests (sortTests tests) = sortTests tests.
Proof.
  unfold sortTests at 1. apply sort_of_sorted.
  apply sort_sorted; intros *; [apply localeCompare_total|apply localeCompare_trans].
Qed.

(** A run of [onEnd] leaves the array in an order that a second run
    keeps: the second report is the one a single run would give. *)
Theorem onEnd_twice (tests : list TestEntry.t) (startTime1 now1 : Z)
    (timestamp1 : string) (startTime2 now2 : Z) (timestamp2 : string)
    (files : gmap string FsNode) (outputDir : string) :
  onEnd (onEnd tests startTime1 now1 timestamp1 files outputDir).1
    startTime2 now2 timestamp2 files outputDir
  = onEnd tests startTime2 now2 timestamp2 files outputDir.
Proof. unfold onEnd. simpl. by rewrite sortTests_idempotent. Qed.

(** ** Metadata and traces *)






Lemma join_app sep (l1 l2 : list string) :
  l1 ≠ [] → l2 ≠ [] →
  join sep (l1 ++ l2) = join sep l1 +:+ sep +:+ join sep l2.
Proof.
  intros H1 H2. induction l1 as [|x l1 IH]; [done|].
  destruct l1 as [|y l1].
  - simpl. by destruct l2.
  - change (join sep ((x :: y :: l1) ++ l2))
      with (x +:+ sep +:+ join sep ((y :: l1) ++ l2)).
    rewrite IH by done.
    change (join sep (x :: y :: l1)) with (x +:+ sep +:+ join sep (y :: l1)).
    by rewrite !append_assoc.
Qed.

(** The trace of several errors is made of the traces of its parts, in
    order, separated by a line of three dashes; no error is lost. *)
Theorem formatErrors_app (errors1 errors2 : list TestError.t) :
  formatErrors (errors1 ++ errors2)
  = match formatErrors errors1, formatErrors errors2 with
    | Some trace1, Some trace2 =>
        Some (trace1 +:+ (LF +:+ "---" +:+ LF) +:+ trace2)
    | Some trace1, None => Some trace1
    | None, trace2 => trace2
    end.
Proof.
  unfold formatErrors. destruct errors1 as [|e1 l1]; [by destruct errors2|].
  destruct errors2 as [|e2 l2]; [by rewrite app_nil_r|].
  change (length (_ ++ _) =? 0)%nat with false.
  cbn [length Nat.eqb]. rewrite fmap_app. by rewrite join_app.
Qed.

(** ** Template and files *)

Lemma replaceGlobal_from_absent pattern replaceValue s :
  (∀ j, String.prefix pattern (sdrop j s) = false) →
  ∀ preceding, replaceGlobal_from pattern replaceValue 0 preceding s = s.
Proof.
  induction s as [|c s IH]; intros Habs preceding; [done|].
  cbn [replaceGlobal_from]. pose proof (Habs 0%nat) as H0.
  change (sdrop 0 (String c s)) with (String c s) in H0. rewrite H0. f_equal.
  apply IH. intros j. apply (Habs (S j)).
Qed.

(** A template without any of the five markers comes out unchanged,
    whatever is to be injected. *)
Theorem injectTemplate_without_markers (template css js data title logo : string) :
  indexOf STYLES_MARKER template = None →
  indexOf SCRIPT_MARKER template = None →
  indexOf DATA_MARKER template = None →
  indexOf TITLE_PLACEHOLDER template = None →
  indexOf LOGO_MARKER template = None →
  injectTemplate template css js data title logo = template.
Proof.
  intros H1 H2 H3 H4 H5. unfold injectTemplate.
  unfold replace at 4. rewrite H1. unfold replace at 3. rewrite H2.
  unfold replace at 2. rewrite H3.
  unfold replaceGlobal. rewrite replaceGlobal_from_absent by (by apply indexOf_None).
  unfold replace. by rewrite H5.
Qed.

Lemma injectTemplate_without_markers_witness :
  injectTemplate "<html><body>static</body></html>" "a{}" "f()" "{}" "T" "<img>"
  = "<html><body>static</body></html>".
Proof. apply injectTemplate_without_markers; reflexivity. Defined.

Lemma logoHtml_directory files cwd logo :
  logo ≠ "" → files !! path_resolve cwd logo = Some Directory →
  logoHtml files cwd logo = Throw "EISDIR".
Proof.
  intros Hlogo Hdir. unfold logoHtml, existsSync, readFileSync. rewrite Hdir.
  by destruct logo.
Qed.

Lemma generateHTMLReport_logo_Throw files dirname cwd outputDir options data e :
  logoHtml files cwd (Options.logo options) = Throw e →
  ∃ err, generateHTMLReport files dirname cwd outputDir options data = Throw err.
Proof.
  intros Hh. unfold generateHTMLReport. rewrite Hh.
  destruct (readTemplate files dirname) as [[[template css] js]|]; simpl; by eexists.
Qed.

Lemma generateHTMLReport_path files dirname cwd outputDir options data path html :
  generateHTMLReport files dirname cwd outputDir options data = Ok (path, html) →
  path = path_join outputDir (Options.outputFile options).
Proof.
  intros G. unfold generateHTMLReport in G.
  destruct (readTemplate files dirname) as [[[template css] js]|]; [|done].
  simpl in G. destruct (logoHtml _ _ _); simpl in G; by simplify_eq.
Qed.

(** *** Which reads succeed *)

Lemma readOr_succeeds files p fallback :
  (∃ content, readOr files p fallback = Ok content) ↔ files !! p ≠ Some Directory.
Proof.
  unfold readOr, existsSync, readFileSync.
  destruct (files !! p) as [[c|]|]; split; try done; try (by eexists).
  by intros [? ?].
Qed.

Lemma readTemplate_succeeds files dirname options cwd :
  (∃ r, readTemplate files dirname = Ok r)
  ↔ Forall (λ p, files !! p ≠ Some Directory)
      (take 3 (consulted files dirname cwd options)).
Proof.
  unfold readTemplate, consulted.
  destruct (existsSync files (path_join dirname "../html/template.html")) eqn:E;
    cbn [app take]; rewrite !Forall_cons, Forall_nil.
  - unfold existsSync in E. unfold readFileSync at 1.
    destruct (files !! path_join dirname "../html/template.html") as [[t|]|];
      [|simpl; split; [by intros [? ?]|by intros [? _]]|done].
    rewrite <- !(readOr_succeeds files _ "").
    simpl. split.
    + intros [r Hr]. split; [done|].
      destruct (readOr files (path_join dirname "../html/styles.css") "");
        [|done].
      destruct (readOr files (path_join dirname "../html/report.js") "");
        [|done].
      split_and!; [by eexists..|done].
    + intros (_ & [c ->] & [j ->] & _). by eexists.
  - rewrite <- (readOr_succeeds files _ getDefaultTemplate).
    rewrite <- !(readOr_succeeds files _ "").
    split.
    + intros [r Hr].
      destruct (readOr files _ getDefaultTemplate); [|done].
      destruct (readOr files (path_join dirname "../../src/html/styles.css") "");
        [|done].
      destruct (readOr files (path_join dirname "../../src/html/report.js") "");
        [|done].
      split_and!; [by eexists..|done].
    + intros ([t ->] & [c ->] & [j ->] & _). by eexists.
Qed.

Lemma logoHtml_succeeds files cwd logo :
  (∃ html, logoHtml files cwd logo = Ok html)
  ↔ Forall (λ p, files !! p ≠ Some Directory)
      (if truthy logo then [path_resolve cwd logo] else []).
Proof.
  unfold logoHtml, existsSync, readFileSync. destruct (truthy logo).
  - rewrite Forall_singleton.
    destruct (files !! path_resolve cwd logo) as [[c|]|]; simpl.
    + split; [done|]. intros _. by eexists.
    + split; [by intros [? ?]|done].
    + split; [done|]. intros _. by eexists.
  - split; [done|]. intros _. by eexists.
Qed.

Lemma consulted_length files dirname cwd options :
  (3 ≤ length (consulted files dirname cwd options))%nat
  ∧ drop 3 (consulted files dirname cwd options)
    = if truthy (Options.logo options)
      then [path_resolve cwd (Options.logo options)] else [].
Proof.
  unfold consulted. destruct (existsSync _ _); (split; [simpl; lia|done]).
Qed.

Lemma generateHTMLReport_succeeds files dirname cwd outputDir options data :
  (∃ html, generateHTMLReport files dirname cwd outputDir options data
           = Ok (path_join outputDir (Options.outputFile options), html))
  ↔ Forall (λ p, files !! p ≠ Some Directory) (consulted files dirname cwd options).
Proof.
  rewrite <- (take_drop 3 (consulted files dirname cwd options)) at 1.
  rewrite Forall_app, <- (readTemplate_succeeds files dirname options cwd).
  destruct (consulted_length files dirname cwd options) as [_ ->].
  rewrite <- logoHtml_succeeds. unfold generateHTMLReport. split.
  - intros [html H].
    destruct (readTemplate files dirname) as [[[template css] js]|]; [|done].
    simpl in H. destruct (logoHtml _ _ _); [|done]. split; by eexists.
  - intros [[[[template css] js] ->] [logo ->]]. simpl. by eexists.
Qed.

(** For a reporter as its constructor leaves it, with the output
    directory resolved from the working directory: [generateHTMLReport]
    succeeds exactly when none of the files that it reads is a directory
    and the document can be written, that is, the output path does not
    end with a slash and is not a directory, and the directory that is to
    hold it exists.  A template, stylesheet, script or logo that is
    missing is never an error.  The document is then at the output path,
    and nothing else has changed. *)
Theorem generateHTMLReport_directories (files : gmap string FsNode)
    (dirname cwd : string) (options : Options.t) (data : string) :
  isAbsolute dirname = true →
  isAbsolute cwd = true →
  let outputDir := path_resolve cwd (Options.outputDir options) in
  let outputPath := path_join outputDir (Options.outputFile options) in
  let readable :=
    Forall (λ p, files !! p ≠ Some Directory)
      (consulted files dirname cwd options) in
  let writable :=
    endsWithSlash outputPath = false
    ∧ files !! outputPath ≠ Some Directory
    ∧ files !! parentPath outputPath = Some Directory in
  ((∃ html, generateHTMLReport files dirname cwd outputDir options data
            = Ok (outputPath, html)) ↔ readable)
  ∧ ((∃ files', writeHTMLReport files dirname cwd outputDir options data
                = Ok files') ↔ readable ∧ writable)
  ∧ (∀ files', writeHTMLReport files dirname cwd outputDir options data
               = Ok files' →
       ∃ html, generateHTMLReport files dirname cwd outputDir options data
               = Ok (outputPath, html)
               ∧ files' = <[outputPath := File html]> files).
Proof.
  intros _ _ outputDir outputPath readable writable.
  pose proof (generateHTMLReport_succeeds files dirname cwd outputDir options data)
    as Hg. fold outputPath readable in Hg.
  assert (∀ html, (∃ files', writeFileSync files outputPath html = Ok files')
                  ↔ writable) as Hw.
  { intros html. subst writable. unfold writeFileSync.
    destruct (endsWithSlash outputPath);
      [split; [by intros [? ?]|by intros [? _]]|].
    destruct (files !! outputPath) as [[c|]|];
      destruct (files !! parentPath outputPath) as [[c'|]|];
      split; try (by intros [? ?]); try (by eexists); try tauto;
      intros (_ & ? & ?); done. }
  split_and!; [done| |].
  - rewrite <- Hg. unfold writeHTMLReport. split.
    + intros [files' H].
      destruct (generateHTMLReport _ _ _ _ _ _) as [[path html]|] eqn:G; [|done].
      pose proof (generateHTMLReport_path _ _ _ _ _ _ _ _ G) as ->.
      simpl in H. fold outputPath in H. split; [by eexists|].
      apply (Hw html). by eexists.
    + intros [[html ->] Hwr]. simpl. by apply Hw.
  - intros files' H. unfold writeHTMLReport in H.
    destruct (generateHTMLReport _ _ _ _ _ _) as [[path html]|] eqn:G; [|done].
    pose proof (generateHTMLReport_path _ _ _ _ _ _ _ _ G) as ->.
    simpl in H. fold outputPath in H. exists html. split; [done|].
    unfold writeFileSync in H. repeat case_match; by simplify_eq.
Qed.

Lemma generateHTMLReport_directories_witness :
  let files : gmap string FsNode :=
    {[ "/" := Directory; "/work" := Directory;
       "/work/craft-report" := Directory;
       "/pkg/src/html/styles.css" := File "body{}" ]} in
  ∃ files',
    writeHTMLReport files "/pkg/dist/reporter" "/work" "/work/craft-report"
      (resolveOptions (mkReporterOptions None None None None (Some "logo.png")))
      "{}"
    = Ok files'.
Proof.
  intros files.
  apply (generateHTMLReport_directories files "/pkg/dist/reporter" "/work"
           (resolveOptions (mkReporterOptions None None None None (Some "logo.png")))
           "{}"); [reflexivity..|].
  split.
  - repeat constructor; discriminate.
  - split_and!; [reflexivity|discriminate|reflexivity].
Defined.

(** *** The files that [onEnd] writes *)

Lemma lookup_directories (files : gmap string FsNode) (paths : list string) q :
  foldr (λ p files, <[p := Directory]> files) files paths !! q
  = if decide (q ∈ paths) then Some Directory else files !! q.
Proof.
  induction paths as [|p paths IH]; cbn [foldr].
  - case_decide as Hin; [by apply elem_of_nil in Hin|done].
  - destruct (decide (p = q)) as [->|Hne].
    + rewrite lookup_insert_eq. rewrite decide_True; [done|]. constructor.
    + rewrite lookup_insert_ne, IH by done.
      destruct (decide (q ∈ paths)) as [Hin|Hin].
      * rewrite decide_True; [done|]. by constructor.
      * rewrite decide_False; [done|]. intros [?|?]%elem_of_cons; congruence.
Qed.

Lemma mkdirSync_Ok files path files' :
  mkdirSync files path = Ok files' →
  withDirectories files files'
  ∧ (∀ p, p ∈ ancestors path → files' !! p = Some Directory)
  ∧ (∀ p, p ∉ ancestors path → files' !! p = files !! p).
Proof.
  unfold mkdirSync. destruct (existsb _ _) eqn:E; [done|]. intros [= <-].
  split_and!.
  - intros p. rewrite lookup_directories.
    destruct (decide (p ∈ ancestors path)) as [Hin|Hin]; [|by left].
    destruct (files !! p) as [[c|]|] eqn:Ep; [|by left|by right].
    assert (existsb (λ p, isFile (files !! p)) (ancestors path) = true) as Ht;
      [|congruence].
    apply existsb_exists. exists p. split; [by apply list_elem_of_In|].
    by rewrite Ep.
  - intros p Hin. by rewrite lookup_directories, decide_True.
  - intros p Hin. by rewrite lookup_directories, decide_False.
Qed.

Lemma withDirectories_refl files : withDirectories files files.
Proof. intros p. by left. Qed.

Lemma withDirectories_read files files' p :
  withDirectories files files' →
  (existsSync files' p = false → existsSync files p = false)
  ∧ (∀ content, readFileSync files' p = Ok content →
       existsSync files p = true ∧ readFileSync files p = Ok content).
Proof.
  intros H. unfold existsSync, readFileSync.
  destruct (H p) as [->|[-> ->]]; [|done].
  destruct (files !! p) as [[c|]|]; done.
Qed.

Lemma withDirectories_readOr files files' p fallback content :
  withDirectories files files' →
  readOr files' p fallback = Ok content → readOr files p fallback = Ok content.
Proof.
  intros H. unfold readOr, existsSync, readFileSync.
  destruct (H p) as [->|[-> ->]]; done.
Qed.

Lemma withDirectories_readTemplate files files' dirname r :
  withDirectories files files' →
  readTemplate files' dirname = Ok r → readTemplate files dirname = Ok r.
Proof.
  intros H. unfold readTemplate.
  destruct (existsSync files' (path_join dirname "../html/template.html")) eqn:E.
  - destruct (readFileSync files' _) as [template|] eqn:Et; [|done].
    apply (withDirectories_read _ _ _ H) in Et as [-> ->]. simpl.
    destruct (readOr files' (path_join dirname "../html/styles.css") "")
      as [css|] eqn:Ec; [|done].
    rewrite (withDirectories_readOr _ _ _ _ _ H Ec). simpl.
    destruct (readOr files' (path_join dirname "../html/report.js") "")
      as [js|] eqn:Ej; [|done].
    by rewrite (withDirectories_readOr _ _ _ _ _ H Ej).
  - apply (withDirectories_read _ _ _ H) in E as ->.
    destruct (readOr files' _ getDefaultTemplate) as [template|] eqn:Et; [|done].
    rewrite (withDirectories_readOr _ _ _ _ _ H Et). simpl.
    destruct (readOr files' (path_join dirname "../../src/html/styles.css") "")
      as [css|] eqn:Ec; [|done].
    rewrite (withDirectories_readOr _ _ _ _ _ H Ec). simpl.
    destruct (readOr files' (path_join dirname "../../src/html/report.js") "")
      as [js|] eqn:Ej; [|done].
    by rewrite (withDirectories_readOr _ _ _ _ _ H Ej).
Qed.

Lemma withDirectories_logoHtml files files' cwd logo html :
  withDirectories files files' →
  logoHtml files' cwd logo = Ok html → logoHtml files cwd logo = Ok html.
Proof.
  intros H. unfold logoHtml, existsSync, readFileSync.
  destruct (H (path_resolve cwd logo)) as [->|[-> ->]]; [done|].
  by destruct (truthy logo).
Qed.

(** Directories created where nothing was do not change a report that
    is rendered: had one of them been read, the read would have thrown. *)
Lemma withDirectories_generateHTMLReport files files' dirname cwd outputDir
    options data r :
  withDirectories files files' →
  generateHTMLReport files' dirname cwd outputDir options data = Ok r →
  generateHTMLReport files dirname cwd outputDir options data = Ok r.
Proof.
  intros H. unfold generateHTMLReport.
  destruct (readTemplate files' dirname) as [[[template css] js]|] eqn:Et; [|done].
  rewrite (withDirectories_readTemplate _ _ _ _ H Et). simpl.
  destruct (logoHtml files' _ _) as [logo|] eqn:El; [|done].
  by rewrite (withDirectories_logoHtml _ _ _ _ _ H El).
Qed.

Lemma writeFileSync_Ok files path content files' :
  writeFileSync files path content = Ok files' →
  files' = <[path := File content]> files ∧ files !! path ≠ Some Directory.
Proof. unfold writeFileSync. repeat case_match; naive_solver. Qed.

(** What a completed [onEnd] leaves on disk, for a reporter as its
    constructor leaves it, with the output directory resolved from the
    working directory.  The data file holds the pretty-printed report
    data.  The output path holds the document that [generateHTMLReport]
    renders from the files as they were, unless it is the path of the
    data file, which then replaced it.  No other entry that existed is
    changed or removed, and the only other new entries are directories on
    the way to the output directory, made when that directory was
    missing. *)
Theorem onEnd_files (stringify stringifyPretty : ReportData.t → string)
    (tests : list TestEntry.t) (startTime now : Z)
    (timestamp : string) (files files' : gmap string FsNode)
    (dirname cwd : string) (options : Options.t) :
  isAbsolute dirname = true →
  isAbsolute cwd = true →
  let outputDir := path_resolve cwd (Options.outputDir options) in
  onEndFiles stringify stringifyPretty tests startTime now timestamp files
    dirname cwd outputDir options = Ok files' →
  let outputPath := path_join outputDir (Options.outputFile options) in
  let jsonPath := path_join outputDir "report-data.json" in
  ∃ data html,
    (onEnd tests startTime now timestamp files outputDir).2 = Ok data
    ∧ generateHTMLReport files dirname cwd outputDir options (stringify data)
      = Ok (outputPath, html)
    ∧ files' !! jsonPath = Some (File (stringifyPretty data))
    ∧ (outputPath ≠ jsonPath → files' !! outputPath = Some (File html))
    ∧ (∀ p node, p ≠ outputPath → p ≠ jsonPath →
         files !! p = Some node → files' !! p = Some node)
    ∧ (∀ p, p ≠ outputPath → p ≠ jsonPath → files !! p = None →
         files' !! p = None
         ∨ (files' !! p = Some Directory ∧ p ∈ ancestors outputDir
            ∧ existsSync files outputDir = false)).
Proof.
  intros _ _ outputDir H outputPath jsonPath. unfold onEndFiles in H.
  destruct (onEnd tests startTime now timestamp files outputDir).2 as [data|];
    [|done]. simpl in H.
  set (made := if existsSync files outputDir then Ok files
               else mkdirSync files outputDir) in H.
  destruct made as [files1|] eqn:M; [|done]. simpl in H.
  assert (withDirectories files files1
          ∧ ∀ p, files1 !! p ≠ files !! p →
                 p ∈ ancestors outputDir ∧ existsSync files outputDir = false)
    as [Hwith Hmade].
  { subst made. destruct (existsSync files outputDir).
    - simplify_eq. split; [apply withDirectories_refl|done].
    - apply mkdirSync_Ok in M as (H1 & _ & H3). split; [done|].
      intros p Hp. split; [|done].
      destruct (decide (p ∈ ancestors outputDir)); [done|]. by rewrite H3 in Hp. }
  unfold writeHTMLReport in H.
  destruct (generateHTMLReport files1 dirname cwd outputDir options (stringify data))
    as [[path html]|] eqn:G; [|done]. simpl in H.
  pose proof (generateHTMLReport_path _ _ _ _ _ _ _ _ G) as ->.
  fold outputPath in H, G.
  destruct (writeFileSync files1 outputPath html) as [files2|] eqn:W1; [|done].
  simpl in H. fold jsonPath in H.
  apply writeFileSync_Ok in W1 as [-> _]. apply writeFileSync_Ok in H as [-> _].
  exists data, html. split_and!; [done|..].
  - by apply (withDirectories_generateHTMLReport _ _ _ _ _ _ _ _ Hwith).
  - apply lookup_insert_eq.
  - intros Hne. rewrite lookup_insert_ne by done. apply lookup_insert_eq.
  - intros p node H1 H2 Hp. rewrite !lookup_insert_ne by done.
    destruct (Hwith p) as [->|[? _]]; congruence.
  - intros p H1 H2 Hp. rewrite !lookup_insert_ne by done.
    destruct (Hwith p) as [Heq|[_ Hdir]]; [left; congruence|].
    right. split; [done|]. apply Hmade. congruence.
Qed.

Lemma onEnd_files_witness :
  let html := injectTemplate getDefaultTemplate "" "" "{}" "Craft Test Report" "" in
  let files : gmap string FsNode :=
    {[ "/" := Directory; "/work" := Directory;
       "/work/notes.txt" := File "keep" ]} in
  let files' : gmap string FsNode :=
    <[ "/work/craft-report/report-data.json" := File "{ }" ]>
      (<[ "/work/craft-report/report.html" := File html ]>
         (<[ "/work/craft-report" := Directory ]> files)) in
  onEndFiles (λ _, "{}") (λ _, "{ }") (record scenario) 0 1000 "" files
    "/pkg/dist/reporter" "/work" "/work/craft-report"
    (resolveOptions (mkReporterOptions None None None None None))
  = Ok files'
  ∧ files' !! "/work/notes.txt" = Some (File "keep").
Proof.
  intros html files files'.
  assert (onEndFiles (λ _, "{}") (λ _, "{ }") (record scenario) 0 1000 "" files
            "/pkg/dist/reporter" "/work" "/work/craft-report"
            (resolveOptions (mkReporterOptions None None None None None))
          = Ok files') as H by reflexivity.
  split; [exact H|].
  pose proof (onEnd_files (λ _, "{}") (λ _, "{ }") (record scenario) 0 1000 ""
    files files' "/pkg/dist/reporter" "/work"
    (resolveOptions (mkReporterOptions None None None None None))
    eq_refl eq_refl H) as Hfiles.
  cbv zeta in Hfiles.
  destruct Hfiles as (data & document & _ & _ & _ & _ & Hkeep & _).
  apply Hkeep; [discriminate..|reflexivity].
Defined.

(** A logo path that is a directory makes [onEnd] throw: the failure of
    [generateHTMLReport] is not caught, and the statements after it, the
    write of the data file among them, are not reached. *)
Theorem onEnd_aborts_on_logo_directory
    (stringify stringifyPretty : ReportData.t → string)
    (tests : list TestEntry.t) (startTime now : Z)
    (timestamp : string) (files : gmap string FsNode)
    (dirname cwd outputDir : string) (options : Options.t) :
  Options.logo options ≠ "" →
  files !! path_resolve cwd (Options.logo options) = Some Directory →
  ∃ err,
    onEndFiles stringify stringifyPretty tests startTime now timestamp files
      dirname cwd outputDir options = Throw err.
Proof.
  intros Hlogo Hdir. unfold onEndFiles.
  destruct (loadExistingComments_Ok files outputDir) as [v Hv].
  unfold onEnd. simpl. rewrite Hv. simpl.
  set (made := if existsSync files outputDir then Ok files
               else mkdirSync files outputDir).
  destruct made as [files1|] eqn:M; [|by eexists]. simpl.
  assert (files1 !! path_resolve cwd (Options.logo options) = Some Directory)
    as Hdir1.
  { subst made. destruct (existsSync files outputDir); [by simplify_eq|].
    apply mkdirSync_Ok in M as (H1 & _).
    destruct (H1 (path_resolve cwd (Options.logo options))) as [->|[? _]];
      congruence. }
  unfold writeHTMLReport.
  edestruct (generateHTMLReport_logo_Throw files1 dirname cwd outputDir options)
    as [err ->]; [by apply logoHtml_directory|].
  by eexists.
Qed.

Lemma onEnd_aborts_on_logo_directory_witness :
  ∃ err,
    onEndFiles (λ _, "{}") (λ _, "{ }") (record scenario) 0 1000 ""
      {[ "/work/assets" := Directory ]} "/pkg" "/work" "/work/out"
      (resolveOptions (mkReporterOptions None None None None (Some "assets")))
    = Throw err.
Proof.
  apply onEnd_aborts_on_logo_directory; [discriminate|reflexivity].
Defined.
